(** * Voice session engine of the kiosk assistant (App component)

    A shallow embedding of the audio/session logic that lives inside the
    [App] React component: the capture-path PCM conversion, the playback
    scheduling around [nextStartTimeRef], the live-session callbacks and the
    avatar state they drive.

    Conventions of the embedding.
    - JavaScript numbers that carry audio samples or device time are modelled
      as rationals ([Q]).  Every finite Float32 sample is a dyadic rational
      and its product with 32768 (a power of two) is exact in binary64, so
      the sample conversion is modelled without loss.  Device times are
      modelled with exact rational arithmetic, the literal 0.1 as 1/10;
      the end-of-segment test is also evaluated on binary64 numbers where
      an example depends on it.
    - React state ([useState]) and refs ([useRef]) are fields of one record,
      [AppState]; a setter call is a field update.
    - An [async] handler is cut at each [await]: every piece that runs
      without interruption is one function, and the result of the awaited
      call is an argument of the piece that follows it.
    - [ctx.currentTime], [uuidv4()] and [new Date()] are inputs of the piece
      that reads them.
    - Objects that the refs point to (buffer sources handed to the output
      device, microphone streams, script processors, live connections) live
      in lists of the state; a ref holds an index into its list, so two
      handlers that share an object see each other's effects. *)

From Stdlib Require Import ZArith QArith Qround Qminmax List String Ascii Bool Lia Lqa.
From Stdlib Require PrimFloat FloatOps SpecFloat.
Import ListNotations.

Local Open Scope Z_scope.

(** ** types.ts *)

Inductive Role := USER | MODEL.

Record Message := mkMessage {
  id : string;
  role : Role;
  text : string;
  timestamp : Z
}.

Inductive AvatarState := IDLE | LISTENING | THINKING | SPEAKING.

Inductive AppMode := LANDING | TEXT_CHAT | LIVE_VOICE.

Definition AvatarState_eqb (a b : AvatarState) : bool :=
  match a, b with
  | IDLE, IDLE | LISTENING, LISTENING | THINKING, THINKING | SPEAKING, SPEAKING => true
  | _, _ => false
  end.

Definition AppMode_eqb (a b : AppMode) : bool :=
  match a, b with
  | LANDING, LANDING | TEXT_CHAT, TEXT_CHAT | LIVE_VOICE, LIVE_VOICE => true
  | _, _ => false
  end.

(** ** Capture path: Float32 to Int16 PCM *)

Module Pcm.

(** Truncation toward zero of a rational (the [truncate] of ECMAScript's
    integer conversions). *)
Definition Qtrunc (q : Q) : Z := Z.quot (Qnum q) (Zpos (Qden q)).

(** ECMAScript [ToInt16], the conversion performed by a store into an
    [Int16Array]: truncate, reduce modulo 2^16, re-centre. *)
Definition ToInt16 (q : Q) : Z :=
  let int := Qtrunc q in
  let int16bit := int mod 65536 in
  if 32768 <=? int16bit then int16bit - 65536 else int16bit.

(** [pcmData[i] = inputData[i] * 32768] *)
Definition pcm_sample (s : Q) : Z := ToInt16 (s * 32768)%Q.

(** The loop over [inputData]. *)
Definition pcm_encode (inputData : list Q) : list Z := map pcm_sample inputData.

(** The conversion as the specification words it: [round(s * 32767)],
    saturated at the int16 bounds.  Rounding is to the nearest integer,
    halves upward. *)
Definition spec_round (q : Q) : Z := Qfloor (q + (1 # 2))%Q.

Definition spec_saturate (z : Z) : Z := Z.max (-32768) (Z.min 32767 z).

Definition spec_pcm_sample (s : Q) : Z := spec_saturate (spec_round (s * 32767)%Q).

(** Little-endian bytes of an int16, as [pcmData.buffer] exposes them. *)
Definition int16_bytes (z : Z) : list Z :=
  let u := z mod 65536 in [u mod 256; u / 256].

Definition pcm_buffer (pcmData : list Z) : list Z := flat_map int16_bytes pcmData.

End Pcm.

(** ** App component: state *)

Local Open Scope string_scope.

Definition WELCOME_MSG : string :=
  "สวัสดีค่ะ ยินดีต้อนรับสู่ตู้ประชาสัมพันธ์อัจฉริยะของวิทยาลัยการอาชีพพุทธมณฑล ท่านสามารถสอบถามข้อมูลหลักสูตร การสมัครเรียน กิจกรรม หรือข้อมูลทั่วไปของวิทยาลัยได้เลยค่ะ".

Definition TEXT_FALLBACK : string := "ขออภัยค่ะ ระบบขัดข้องชั่วคราว".
Definition TEXT_FAILURE : string := "ขออภัย เกิดข้อผิดพลาดในการเชื่อมต่อ".
Definition ERR_NO_KEY : string := "API Key not found in environment variables.".
Definition ERR_LIVE : string := "เกิดข้อผิดพลาดในการเชื่อมต่อ Live API".
Definition ERR_MIC : string := "ไม่สามารถเข้าถึงไมโครโฟนได้ หรือการเชื่อมต่อล้มเหลว".

(** An [AudioBufferSourceNode] after [source.start(startTime)]: when it was
    told to start, how long its buffer is, whether and when [stop()] was
    called on it, and the [mode] that its [onended] closure captured. *)
Record BufferSource := mkSource {
  src_start : Q;
  src_duration : Q;
  src_stopped : option Q;
  src_mode : AppMode
}.

(** The [media] argument of [session.sendRealtimeInput]. *)
Record Media := mkMedia {
  mimeType : string;
  data : string
}.

(** What one run of [startLiveSession] creates past [getUserMedia]: the
    microphone stream, the script processor of [inputCtx] and the live
    connection whose callbacks close over them. *)
Record LiveIO := mkLive {
  ctxSampleRate : Z;        (* sampleRate of inputCtx *)
  bufferSize : nat;         (* createScriptProcessor(bufferSize, 1, 1) *)
  tracksLive : bool;        (* the stream's tracks have not been stopped *)
  onaudioprocessSet : bool; (* processor.onaudioprocess assigned *)
  micToProcessor : bool;    (* source.connect(processor) done *)
  processorToOut : bool;    (* processor.connect(inputCtx.destination) in force *)
  sent : list Media         (* sendRealtimeInput calls, oldest first *)
}.

Record AppState := mkApp {
  (* useState *)
  mode : AppMode;
  messages : list Message;
  input : string;
  isLoading : bool;
  avatarState : AvatarState;
  isConnected : bool;
  error : option string;
  (* useRef; [true] / [Some _] is a non-null [current] *)
  aiRef : bool;
  audioContextRef : bool;
  liveSessionRef : option nat;
  audioSourceRef : option nat;
  nextStartTimeRef : Q;
  inputProcessorRef : option nat;
  streamRef : option nat;
  (* the objects behind the refs *)
  sources : list BufferSource;
  lives : list LiveIO
}.

Definition setMode (v : AppMode) (st : AppState) : AppState :=
  mkApp v (messages st) (input st) (isLoading st) (avatarState st) (isConnected st)
    (error st) (aiRef st) (audioContextRef st) (liveSessionRef st) (audioSourceRef st)
    (nextStartTimeRef st) (inputProcessorRef st) (streamRef st) (sources st) (lives st).

Definition setMessages (f : list Message -> list Message) (st : AppState) : AppState :=
  mkApp (mode st) (f (messages st)) (input st) (isLoading st) (avatarState st)
    (isConnected st) (error st) (aiRef st) (audioContextRef st) (liveSessionRef st)
    (audioSourceRef st) (nextStartTimeRef st) (inputProcessorRef st) (streamRef st)
    (sources st) (lives st).

Definition setInput (v : string) (st : AppState) : AppState :=
  mkApp (mode st) (messages st) v (isLoading st) (avatarState st) (isConnected st)
    (error st) (aiRef st) (audioContextRef st) (liveSessionRef st) (audioSourceRef st)
    (nextStartTimeRef st) (inputProcessorRef st) (streamRef st) (sources st) (lives st).

Definition setIsLoading (v : bool) (st : AppState) : AppState :=
  mkApp (mode st) (messages st) (input st) v (avatarState st) (isConnected st)
    (error st) (aiRef st) (audioContextRef st) (liveSessionRef st) (audioSourceRef st)
    (nextStartTimeRef st) (inputProcessorRef st) (streamRef st) (sources st) (lives st).

Definition setAvatarState (v : AvatarState) (st : AppState) : AppState :=
  mkApp (mode st) (messages st) (input st) (isLoading st) v (isConnected st)
    (error st) (aiRef st) (audioContextRef st) (liveSessionRef st) (audioSourceRef st)
    (nextStartTimeRef st) (inputProcessorRef st) (streamRef st) (sources st) (lives st).

Definition setIsConnected (v : bool) (st : AppState) : AppState :=
  mkApp (mode st) (messages st) (input st) (isLoading st) (avatarState st) v
    (error st) (aiRef st) (audioContextRef st) (liveSessionRef st) (audioSourceRef st)
    (nextStartTimeRef st) (inputProcessorRef st) (streamRef st) (sources st) (lives st).

Definition setError (v : option string) (st : AppState) : AppState :=
  mkApp (mode st) (messages st) (input st) (isLoading st) (avatarState st)
    (isConnected st) v (aiRef st) (audioContextRef st) (liveSessionRef st)
    (audioSourceRef st) (nextStartTimeRef st) (inputProcessorRef st) (streamRef st)
    (sources st) (lives st).

Definition set_audioContextRef (v : bool) (st : AppState) : AppState :=
  mkApp (mode st) (messages st) (input st) (isLoading st) (avatarState st)
    (isConnected st) (error st) (aiRef st) v (liveSessionRef st) (audioSourceRef st)
    (nextStartTimeRef st) (inputProcessorRef st) (streamRef st) (sources st) (lives st).

Definition set_liveSessionRef (v : option nat) (st : AppState) : AppState :=
  mkApp (mode st) (messages st) (input st) (isLoading st) (avatarState st)
    (isConnected st) (error st) (aiRef st) (audioContextRef st) v (audioSourceRef st)
    (nextStartTimeRef st) (inputProcessorRef st) (streamRef st) (sources st) (lives st).

Definition set_audioSourceRef (v : option nat) (st : AppState) : AppState :=
  mkApp (mode st) (messages st) (input st) (isLoading st) (avatarState st)
    (isConnected st) (error st) (aiRef st) (audioContextRef st) (liveSessionRef st) v
    (nextStartTimeRef st) (inputProcessorRef st) (streamRef st) (sources st) (lives st).

Definition set_nextStartTimeRef (v : Q) (st : AppState) : AppState :=
  mkApp (mode st) (messages st) (input st) (isLoading st) (avatarState st)
    (isConnected st) (error st) (aiRef st) (audioContextRef st) (liveSessionRef st)
    (audioSourceRef st) v (inputProcessorRef st) (streamRef st) (sources st) (lives st).

Definition set_inputProcessorRef (v : option nat) (st : AppState) : AppState :=
  mkApp (mode st) (messages st) (input st) (isLoading st) (avatarState st)
    (isConnected st) (error st) (aiRef st) (audioContextRef st) (liveSessionRef st)
    (audioSourceRef st) (nextStartTimeRef st) v (streamRef st) (sources st) (lives st).

Definition set_streamRef (v : option nat) (st : AppState) : AppState :=
  mkApp (mode st) (messages st) (input st) (isLoading st) (avatarState st)
    (isConnected st) (error st) (aiRef st) (audioContextRef st) (liveSessionRef st)
    (audioSourceRef st) (nextStartTimeRef st) (inputProcessorRef st) v (sources st)
    (lives st).

Definition set_sources (v : list BufferSource) (st : AppState) : AppState :=
  mkApp (mode st) (messages st) (input st) (isLoading st) (avatarState st)
    (isConnected st) (error st) (aiRef st) (audioContextRef st) (liveSessionRef st)
    (audioSourceRef st) (nextStartTimeRef st) (inputProcessorRef st) (streamRef st) v
    (lives st).

Definition set_lives (v : list LiveIO) (st : AppState) : AppState :=
  mkApp (mode st) (messages st) (input st) (isLoading st) (avatarState st)
    (isConnected st) (error st) (aiRef st) (audioContextRef st) (liveSessionRef st)
    (audioSourceRef st) (nextStartTimeRef st) (inputProcessorRef st) (streamRef st)
    (sources st) v.

(** The first render: [useState] initial values, refs at their defaults and
    the mount effect, which fills [aiRef] when the API key is present and
    reports an error when it is not. *)
Definition welcome (date : Z) : Message := mkMessage "welcome-init" MODEL WELCOME_MSG date.

Definition initial (apiKey : bool) (date : Z) : AppState :=
  mkApp LANDING [welcome date] "" false IDLE false
    (if apiKey then None else Some ERR_NO_KEY)
    apiKey false None None 0%Q None None [] [].

(** ** JavaScript helpers *)

Local Open Scope list_scope.

(** Truthiness of an optional string ([undefined] and the empty string are
    falsy). *)
Definition truthy (o : option string) : bool :=
  match o with
  | Some (String _ _) => true
  | _ => false
  end.

(** [x || fallback] on optional strings. *)
Definition or_else (o : option string) (fallback : string) : string :=
  match o with
  | Some (String a s) => String a s
  | _ => fallback
  end.

(** [!s.trim()]: the string holds nothing but white space and line
    terminators.  Strings are UTF-8 byte strings here, so the code points
    beyond ASCII that [trim] removes are matched by their encodings. *)
Definition ws_ascii (a : ascii) : bool :=
  let n := N_of_ascii a in
  ((9 <=? n) && (n <=? 13) || (n =? 32))%N.

(* U+00A0 *)
Definition ws_two (a b : ascii) : bool :=
  ((N_of_ascii a =? 194) && (N_of_ascii b =? 160))%N.

(* U+1680, U+2000..U+200A, U+2028, U+2029, U+202F, U+205F, U+3000, U+FEFF *)
Definition ws_three (a b c : ascii) : bool :=
  let x := N_of_ascii a in
  let y := N_of_ascii b in
  let z := N_of_ascii c in
  ((x =? 225) && (y =? 154) && (z =? 128)
   || (x =? 226) && (y =? 128)
      && ((128 <=? z) && (z <=? 138) || (z =? 168) || (z =? 169) || (z =? 175))
   || (x =? 226) && (y =? 129) && (z =? 159)
   || (x =? 227) && (y =? 128) && (z =? 128)
   || (x =? 239) && (y =? 187) && (z =? 191))%N.

Fixpoint trim_is_empty (s : string) : bool :=
  match s with
  | EmptyString => true
  | String a s1 =>
      if ws_ascii a then trim_is_empty s1
      else
        match s1 with
        | String b s2 =>
            if ws_two a b then trim_is_empty s2
            else
              match s2 with
              | String c s3 => if ws_three a b c then trim_is_empty s3 else false
              | EmptyString => false
              end
        | EmptyString => false
        end
  end.

(** [l[i] = f(l[i])] for an index in range; nothing happens out of range
    (the handlers only ever use indices they obtained from a ref). *)
Fixpoint update_at {A} (i : nat) (f : A -> A) (l : list A) : list A :=
  match l, i with
  | [], _ => []
  | x :: l', O => f x :: l'
  | x :: l', S i' => x :: update_at i' f l'
  end.

(** ** Playback: [playAudio] *)

(** Lines up to the first [await]: the output context is created on first
    use. *)
Definition playAudio_enter (st : AppState) : AppState :=
  if audioContextRef st then st else set_audioContextRef true st.

(** The part of [playAudio] that follows [await decodeAudioData(...)], for a
    buffer of length [duration] decoded while the device clock reads [now];
    [m] is the [mode] of the render that made this [playAudio]. *)
Definition playAudio_scheduled (m : AppMode) (now duration : Q) (st : AppState) : AppState :=
  let startTime := Qmax (nextStartTimeRef st) now in
  let source := mkSource startTime duration None m in
  let st1 := set_sources (sources st ++ [source]) st in
  let st2 := set_nextStartTimeRef (startTime + duration)%Q st1 in
  let st3 := setAvatarState SPEAKING st2 in
  set_audioSourceRef (Some (List.length (sources st))) st3.

(** [decodeAudioData] (or [resume]) threw: the [catch] only logs. *)
Definition playAudio_failed (st : AppState) : AppState := st.

(** [source.onended] of the source at index [i], fired while the device
    clock reads [now].  The test is made on exact numbers, with 1/10 for the
    literal [0.1]; the code makes it on binary64 numbers, where the literal
    lies a little above 1/10 and the subtraction rounds, so the two can
    differ when the cursor is close to [now + 0.1] ([Binary64.onended_test]
    is the test as the code computes it). *)
Definition source_onended (i : nat) (now : Q) (st : AppState) : AppState :=
  match nth_error (sources st) i with
  | None => st
  | Some src =>
      if Qle_bool (nextStartTimeRef st - (1 # 10))%Q now
      then setAvatarState
             (if AppMode_eqb (src_mode src) LIVE_VOICE then LISTENING else IDLE) st
      else st
  end.

(** [source.stop()] at device time [now]; a source that was already
    stopped stays stopped since then. *)
Definition stop_source (now : Q) (src : BufferSource) : BufferSource :=
  match src_stopped src with
  | Some _ => src
  | None => mkSource (src_start src) (src_duration src) (Some now) (src_mode src)
  end.

(** The source is due to produce sound at or after [t]: it has not been
    stopped and its buffer ends after [t]. *)
Definition sounding_after (t : Q) (src : BufferSource) : bool :=
  match src_stopped src with
  | Some _ => false
  | None => negb (Qle_bool (src_start src + src_duration src)%Q t)
  end.

(** The source is playing at [t]. *)
Definition playing_at (t : Q) (src : BufferSource) : bool :=
  Qle_bool (src_start src) t && sounding_after t src.

(** The source was scheduled and has not started by [t]. *)
Definition pending_at (t : Q) (src : BufferSource) : bool :=
  negb (Qle_bool (src_start src) t) && sounding_after t src.

(** ** Text chat: [handleSendMessage] *)

(** From the guard to the first [await]. *)
Definition handleSendMessage_enter (uuid : string) (date : Z) (st : AppState) : AppState :=
  if trim_is_empty (input st) || negb (aiRef st) then st
  else
    let userMsg := mkMessage uuid USER (input st) date in
    let st1 := setMessages (fun prev => prev ++ [userMsg]) st in
    let st2 := setInput "" st1 in
    let st3 := setIsLoading true st2 in
    setAvatarState THINKING st3.

(** The text reply arrived; the second request is sent. *)
Definition handleSendMessage_text (uuid : string) (date : Z) (responseText : option string)
    (st : AppState) : AppState :=
  let textResponse := or_else responseText TEXT_FALLBACK in
  let modelMsg := mkMessage uuid MODEL textResponse date in
  setMessages (fun prev => prev ++ [modelMsg]) st.

Definition handleSendMessage_finally (st : AppState) : AppState := setIsLoading false st.

(** The speech reply arrived, with or without audio.  With audio the handler
    goes on into [playAudio] and stops at its [await]; [finally] then waits
    for [playAudio] to return.  Without audio [finally] runs at once. *)
Definition handleSendMessage_tts (audioData : option string) (now : Q) (st : AppState)
    : AppState :=
  let st1 := setAvatarState IDLE st in
  if truthy audioData then
    let st2 := if audioContextRef st1 then set_nextStartTimeRef now st1 else st1 in
    playAudio_enter st2
  else handleSendMessage_finally st1.

(** Either request threw. *)
Definition handleSendMessage_catch (uuid : string) (date : Z) (st : AppState) : AppState :=
  let st1 := setMessages (fun prev => prev ++ [mkMessage uuid MODEL TEXT_FAILURE date]) st in
  let st2 := setAvatarState IDLE st1 in
  handleSendMessage_finally st2.

(** ** Live voice: [startLiveSession], its callbacks, [stopLiveSession] *)

(** From the guard to [await getUserMedia(...)].  [inputCtx] is local to the
    call; the output context is created when there is none yet. *)
Definition startLiveSession_enter (st : AppState) : AppState :=
  if negb (aiRef st) then st
  else
    let st1 := setIsConnected true st in
    let st2 := setAvatarState LISTENING st1 in
    let st3 := setError None st2 in
    if audioContextRef st3 then st3 else set_audioContextRef true st3.

(** How the [try] block ends: [getUserMedia] rejects; building the input
    graph throws once the stream is stored; [live.connect] throws once the
    processor is stored; or [live.connect] returns its promise. *)
Inductive Acquired := MicDenied | GraphThrew | ConnectThrew | ConnectReturned.

Definition startLiveSession_catch (st : AppState) : AppState :=
  let st1 := setError (Some ERR_MIC) st in
  setIsConnected false st1.

(** The stream and processor of a fresh [inputCtx] with
    [sampleRate: 16000] and [createScriptProcessor(4096, 1, 1)]. *)
Definition fresh_live : LiveIO := mkLive 16000 4096 true false false false [].

Definition startLiveSession_resume (r : Acquired) (st : AppState) : AppState :=
  match r with
  | MicDenied => startLiveSession_catch st
  | GraphThrew | ConnectThrew | ConnectReturned =>
      let k := List.length (lives st) in
      let st1 := set_lives (lives st ++ [fresh_live]) st in
      let st2 := set_streamRef (Some k) st1 in
      match r with
      | GraphThrew => startLiveSession_catch st2
      | _ =>
          let st3 := set_inputProcessorRef (Some k) st2 in
          match r with
          | ConnectReturned => set_liveSessionRef (Some k) st3
          | _ => startLiveSession_catch st3
          end
      end
  end.

(** [onopen] of the connection made by run [k] of [startLiveSession]. *)
Definition open_capture (io : LiveIO) : LiveIO :=
  mkLive (ctxSampleRate io) (bufferSize io) (tracksLive io) true true true (sent io).

Definition live_onopen (k : nat) (st : AppState) : AppState :=
  set_lives (update_at k open_capture (lives st)) st.

(** [track.stop()] on every track of the stream. *)
Definition stop_tracks (io : LiveIO) : LiveIO :=
  mkLive (ctxSampleRate io) (bufferSize io) false (onaudioprocessSet io)
    (micToProcessor io) (processorToOut io) (sent io).

(** [processor.disconnect()]: the processor's outgoing connections go. *)
Definition disconnect (io : LiveIO) : LiveIO :=
  mkLive (ctxSampleRate io) (bufferSize io) (tracksLive io) (onaudioprocessSet io)
    (micToProcessor io) false (sent io).

Definition stopLiveSession (st : AppState) : AppState :=
  let st1 := setIsConnected false st in
  let st2 := setAvatarState IDLE st1 in
  let st3 :=
    match streamRef st2 with
    | Some k => set_streamRef None (set_lives (update_at k stop_tracks (lives st2)) st2)
    | None => st2
    end in
  match inputProcessorRef st3 with
  | Some k => set_inputProcessorRef None (set_lives (update_at k disconnect (lives st3)) st3)
  | None => st3
  end.

(** [onmessage]: an audio payload enters [playAudio] (which stops at its
    [await]); an interruption stops the source in [audioSourceRef], moves
    the cursor to the device clock and shows LISTENING. *)
Definition live_onmessage (audioData : option string) (interrupted : bool) (now : Q)
    (st : AppState) : AppState :=
  let st1 := if truthy audioData then playAudio_enter st else st in
  if interrupted then
    let st2 :=
      match audioSourceRef st1 with
      | Some i => set_sources (update_at i (stop_source now) (sources st1)) st1
      | None => st1
      end in
    let st3 := if audioContextRef st2 then set_nextStartTimeRef now st2 else st2 in
    setAvatarState LISTENING st3
  else st1.

Definition live_onclose (st : AppState) : AppState :=
  let st1 := setIsConnected false st in
  setAvatarState IDLE st1.

Definition live_onerror (st : AppState) : AppState :=
  let st1 := setError (Some ERR_LIVE) st in
  stopLiveSession st1.

(** ** Capture: [processor.onaudioprocess] *)

Definition PCM_MIME : string := "audio/pcm;rate=16000".

Section Capture.

(** [arrayBufferToBase64] of services/audioUtils is used as given. *)
Variable arrayBufferToBase64 : list Z -> string.

(** One frame: convert, encode, send.  The [then] callbacks on
    [sessionPromise] run in the order they were registered, so the sends
    are recorded in the order of the frames. *)
Definition send_frame (inputData : list Q) (io : LiveIO) : LiveIO :=
  let pcmData := Pcm.pcm_encode inputData in
  let base64Data := arrayBufferToBase64 (Pcm.pcm_buffer pcmData) in
  mkLive (ctxSampleRate io) (bufferSize io) (tracksLive io) (onaudioprocessSet io)
    (micToProcessor io) (processorToOut io)
    (sent io ++ [mkMedia PCM_MIME base64Data]).

(** The processor of run [k] fires only once [onopen] has given it its
    handler. *)
Definition processor_onaudioprocess (k : nat) (inputData : list Q) (st : AppState)
    : AppState :=
  set_lives
    (update_at k (fun io => if onaudioprocessSet io then send_frame inputData io else io)
       (lives st)) st.

(** ** Everything that can happen to the component *)

Inductive Event :=
| ClickTextChat                 (* setMode(TEXT_CHAT) *)
| ClickLiveVoice                (* setMode(LIVE_VOICE) *)
| ClickLogo                     (* setMode(LANDING) *)
| ClickHome                     (* stopLiveSession(); setMode(LANDING) *)
| TypeInput (v : string)
| DismissError
| SendEnter (uuid : string) (date : Z)
| SendText (uuid : string) (date : Z) (responseText : option string)
| SendTts (audioData : option string) (now : Q)
| SendCatch (uuid : string) (date : Z)
| SendFinally
| AudioScheduled (m : AppMode) (now duration : Q)
| AudioFailed
| SourceEnded (i : nat) (now : Q)
| LiveEnter
| LiveResume (r : Acquired)
| LiveOpen (k : nat)
| LiveFrame (k : nat) (inputData : list Q)
| LiveMessage (audioData : option string) (interrupted : bool) (now : Q)
| LiveClose
| LiveError
| LiveStop
| Unmount.                      (* effect cleanup: stopLiveSession(); ctx.close() *)

(** [Unmount] is the cleanup of the mount effect: [stopLiveSession()], then
    [audioContextRef.current?.close()].  The call to [close()] writes no ref
    and no state, and the record does not tell an open context from a closed
    one ([audioContextRef] says only that the ref holds a context), so the
    step is that of [stopLiveSession]. *)
Definition step (e : Event) (st : AppState) : AppState :=
  match e with
  | ClickTextChat => setMode TEXT_CHAT st
  | ClickLiveVoice => setMode LIVE_VOICE st
  | ClickLogo => setMode LANDING st
  | ClickHome => setMode LANDING (stopLiveSession st)
  | TypeInput v => setInput v st
  | DismissError => setError None st
  | SendEnter uuid date => handleSendMessage_enter uuid date st
  | SendText uuid date r => handleSendMessage_text uuid date r st
  | SendTts a now => handleSendMessage_tts a now st
  | SendCatch uuid date => handleSendMessage_catch uuid date st
  | SendFinally => handleSendMessage_finally st
  | AudioScheduled m now d => playAudio_scheduled m now d st
  | AudioFailed => playAudio_failed st
  | SourceEnded i now => source_onended i now st
  | LiveEnter => startLiveSession_enter st
  | LiveResume r => startLiveSession_resume r st
  | LiveOpen k => live_onopen k st
  | LiveFrame k d => processor_onaudioprocess k d st
  | LiveMessage a i now => live_onmessage a i now st
  | LiveClose => live_onclose st
  | LiveError => live_onerror st
  | LiveStop => stopLiveSession st
  | Unmount => stopLiveSession st
  end.

(** The callbacks run one at a time, in the order they arrive. *)
Definition run (es : list Event) (st : AppState) : AppState :=
  fold_left (fun s e => step e s) es st.

End Capture.

(** ** Vocabulary of the statements *)

(** *** Runs of the scheduler *)

(** A run of calls of the scheduling part of [playAudio]; each call brings
    the clock reading and the length of its buffer. *)
Definition schedule_all (m : AppMode) (calls : list (Q * Q)) (st : AppState) : AppState :=
  fold_left (fun s c => playAudio_scheduled m (fst c) (snd c) s) calls st.

(** The sources such a run hands to the device, from the cursor alone. *)
Fixpoint scheduled_sources (m : AppMode) (cursor : Q) (calls : list (Q * Q))
    : list BufferSource :=
  match calls with
  | [] => []
  | c :: rest =>
      let startTime := Qmax cursor (fst c) in
      mkSource startTime (snd c) None m
        :: scheduled_sources m (startTime + snd c)%Q rest
  end.

(** Every call is made while the audio scheduled before it has not run out:
    the clock has not passed the cursor. *)
Fixpoint arrive_in_time (cursor : Q) (calls : list (Q * Q)) : bool :=
  match calls with
  | [] => true
  | c :: rest =>
      Qle_bool (fst c) cursor && arrive_in_time (Qmax cursor (fst c) + snd c)%Q rest
  end.

(** No buffer has a negative length. *)
Definition durations_ok (calls : list (Q * Q)) : bool :=
  forallb (fun c => Qle_bool 0 (snd c)) calls.

(** Each source starts exactly where the one before it ends. *)
Fixpoint gapless (l : list BufferSource) : Prop :=
  match l with
  | a :: (b :: _) as rest =>
      src_start b = (src_start a + src_duration a)%Q /\ gapless rest
  | _ => True
  end.

(** Start times never go down along the list. *)
Fixpoint starts_ascend (l : list BufferSource) : Prop :=
  match l with
  | a :: (b :: _) as rest => (src_start a <= src_start b)%Q /\ starts_ascend rest
  | _ => True
  end.

(** [audioSourceRef] holds the source scheduled last, if any was. *)
Definition ref_is_last (st : AppState) : Prop :=
  audioSourceRef st
  = match List.length (sources st) with
    | O => None
    | S n => Some n
    end.

(** Every source from index [n] on starts at [t] or later. *)
Definition late_sources (n : nat) (t : Q) (l : list BufferSource) : Prop :=
  forall j src, (n <= j)%nat -> nth_error l j = Some src -> (t <= src_start src)%Q.


(** *** Events and the clock *)

(** The device clock reading an event carries, if it reads the clock. *)
Definition event_clock (e : Event) : option Q :=
  match e with
  | SendTts _ now | AudioScheduled _ now _ | SourceEnded _ now | LiveMessage _ _ now =>
      Some now
  | _ => None
  end.

(** No event of the list reads the clock at less than [t]. *)
Definition clock_not_before (t : Q) (es : list Event) : bool :=
  forallb (fun e => match event_clock e with
                    | Some now => Qle_bool t now
                    | None => true
                    end) es.

(** The buffer an event schedules, if it schedules one, has no negative
    length. *)
Definition event_duration_ok (e : Event) : bool :=
  match e with
  | AudioScheduled _ _ d => Qle_bool 0 d
  | _ => true
  end.

(** The values a handler can give the avatar. *)
Definition assigns (e : Event) : list AvatarState :=
  match e with
  | SendEnter _ _ => [THINKING]
  | SendTts _ _ => [IDLE]
  | SendCatch _ _ => [IDLE]
  | AudioScheduled _ _ _ => [SPEAKING]
  | SourceEnded _ _ => [LISTENING; IDLE]
  | LiveEnter => [LISTENING]
  | LiveMessage _ true _ => [LISTENING]
  | LiveClose | LiveError | LiveStop | ClickHome | Unmount => [IDLE]
  | _ => []
  end.


(** *** Capture *)

(** The message that carries one captured frame. *)
Definition frame_media (b64 : list Z -> string) (inputData : list Q) : Media :=
  mkMedia "audio/pcm;rate=16000" (b64 (Pcm.pcm_buffer (Pcm.pcm_encode inputData))).

(** The processor of run [k] fires once per frame, in order. *)
Definition capture_all (b64 : list Z -> string) (k : nat) (frames : list (list Q))
    (st : AppState) : AppState :=
  fold_left (fun s f => processor_onaudioprocess b64 k f s) frames st.

(** The input side of a live session is set up with 4096-sample buffers on a
    16 kHz context. *)
Definition live_format_ok (io : LiveIO) : Prop :=
  bufferSize io = 4096%nat /\ ctxSampleRate io = 16000.

(** *** The state table of the specification *)

(** The state table of the specification, row by row: the events it names
    and, for text mode ([live = false]) and live mode ([live = true]), the
    transitions it lists. *)
Inductive TableEvent :=
| SubmitOrStartCapture
| ConnectionOpens
| TurnCompleteSynthesisBegins
| FirstAudioChunk
| SegmentEndedNothingQueued
| ServerInterruption
| FatalErrorOrClosed.

Definition spec_table (live : bool) (from : AvatarState) (ev : TableEvent)
    (to : AvatarState) : bool :=
  match ev with
  | SubmitOrStartCapture => AvatarState_eqb from IDLE && AvatarState_eqb to LISTENING
  | ConnectionOpens => AvatarState_eqb from LISTENING && AvatarState_eqb to LISTENING
  | TurnCompleteSynthesisBegins =>
      AvatarState_eqb from LISTENING
      && AvatarState_eqb to (if live then SPEAKING else THINKING)
  | FirstAudioChunk => AvatarState_eqb from THINKING && AvatarState_eqb to SPEAKING
  | SegmentEndedNothingQueued =>
      AvatarState_eqb from SPEAKING
      && AvatarState_eqb to (if live then LISTENING else IDLE)
  | ServerInterruption => live && AvatarState_eqb to LISTENING
  | FatalErrorOrClosed => AvatarState_eqb to IDLE
  end.

(** Some row of the table, for some event and mode, leads from [from] to
    [to]. *)
Definition spec_table_allows (from to : AvatarState) : bool :=
  existsb
    (fun ev => spec_table false from ev to || spec_table true from ev to)
    [SubmitOrStartCapture; ConnectionOpens; TurnCompleteSynthesisBegins;
     FirstAudioChunk; SegmentEndedNothingQueued; ServerInterruption;
     FatalErrorOrClosed].

(** *** Sample states *)

(** The state once [startLiveSession] has gone through. *)
Definition live_started : AppState :=
  startLiveSession_resume ConnectReturned (startLiveSession_enter (initial true 0)).

(** Three buffers of one second each, scheduled back to back at clock 0. *)
Definition three_queued : AppState :=
  schedule_all LIVE_VOICE [(0, 1); (0, 1); (0, 1)]%Q live_started.


(** A live session whose connection has opened, and the same after
    [stopLiveSession]. *)
Definition live_open : AppState := live_onopen 0 live_started.

Definition live_stopped : AppState := stopLiveSession live_open.

(** Text chat: a question typed and sent, and the state once its spoken
    reply, ten seconds long, has been scheduled at clock 0. *)
Definition text_ready : AppState := setInput "hi" (setMode TEXT_CHAT (initial true 0)).

Definition text_spoken : AppState :=
  handleSendMessage_finally
    (playAudio_scheduled TEXT_CHAT 0 10
       (handleSendMessage_tts (Some "UklGRg==") 0
          (handleSendMessage_text "m1" 2 (Some "hello")
             (handleSendMessage_enter "u1" 1 text_ready)))).

(** *** Binary64 spot checks *)

(** The test of [source.onended] on binary64 numbers, with the literal
    [0.1] as JavaScript reads it (the nearest binary64 number). *)
Module Binary64.
Import PrimFloat.

Definition onended_test (cursor now : float) : bool :=
  leb (sub cursor 0x1.999999999999ap-4%float) now.

(** The cursor after a one-second buffer and a sixteenth of a second behind
    it, both scheduled from clock 0. *)
Definition short_tail_cursor : float := add (add 0%float 1%float) 0.0625%float.

(** The rational number that a finite binary64 number stands for. *)
Definition exact (x : float) : Q :=
  match FloatOps.Prim2SF x with
  | SpecFloat.S754_finite s m e =>
      ((if s then -1 else 1) * inject_Z (Zpos m) * Qpower 2 e)%Q
  | _ => 0%Q
  end.



End Binary64.

(** *** Further vocabulary: scheduling *)

(** Starting from clock [c], each source starts at or after the end of the
    one before it. *)
Fixpoint no_overlap_from (c : Q) (l : list BufferSource) : Prop :=
  match l with
  | [] => True
  | a :: rest =>
      (c <= src_start a)%Q
      /\ no_overlap_from (src_start a + src_duration a)%Q rest
  end.

(** The end of the last source of [l], or [c] when there is none. *)
Definition end_of_last (c : Q) (l : list BufferSource) : Q :=
  fold_left (fun _ src => (src_start src + src_duration src)%Q) l c.

(** ** ChatInterface component *)

Module ChatInterface.

(** [handleKeyDown]: [true] when the key press calls [preventDefault] and
    [onSend], that is for Enter without Shift. *)
Definition handleKeyDown (key : string) (shiftKey : bool) : bool :=
  String.eqb key "Enter" && negb shiftKey.

(** [messages.length === 0 && ...]: the invitation to type is rendered. *)
Definition placeholderShown (messages : list Message) : bool :=
  Nat.eqb (List.length messages) 0.

(** [msg.role === Role.USER ? 'justify-end' : 'justify-start'] *)
Definition bubbleOnRight (msg : Message) : bool :=
  match role msg with
  | USER => true
  | MODEL => false
  end.

(** [disabled={isLoading}] on the text field. *)
Definition inputDisabled (isLoading : bool) : bool := isLoading.

(** [disabled={!input.trim() || isLoading}] on the send button. *)
Definition sendDisabled (input : string) (isLoading : bool) : bool :=
  trim_is_empty input || isLoading.

End ChatInterface.

(** ** The text request of [handleSendMessage] *)

(** One entry of [contents]: a role and the text of its single part. *)
Record Content := mkContent {
  c_role : string;
  c_text : string
}.

Definition to_content (m : Message) : Content :=
  mkContent (match role m with
             | USER => "user"
             | MODEL => "model"
             end) (text m).

(** [contents] of the first [generateContent] call.  [messages] and [input]
    are those of the render that made the handler, the state [st] the
    handler is called in; [systemInstruction] stands for
    [BIAC_SYSTEM_INSTRUCTION] of constants.ts. *)
Definition chat_contents (systemInstruction : string) (st : AppState) : list Content :=
  mkContent "user" systemInstruction
    :: map to_content (messages st) ++ [mkContent "user" (input st)].

(** *** Further vocabulary: characters of the input *)

(** An ASCII character that is not white space. *)
Definition visible_ascii (a : ascii) : bool :=
  (N_of_ascii a <? 128)%N && negb (ws_ascii a).

Fixpoint has_visible (s : string) : bool :=
  match s with
  | EmptyString => false
  | String a s' => visible_ascii a || has_visible s'
  end.

Fixpoint all_ws_ascii (s : string) : bool :=
  match s with
  | EmptyString => true
  | String a s' => ws_ascii a && all_ws_ascii s'
  end.

(** No event of the list is the user typing. *)
Definition no_typing (es : list Event) : bool :=
  forallb (fun e => match e with
                    | TypeInput _ => false
                    | _ => true
                    end) es.

(** ** Avatar component *)

Module Avatar.
Local Open Scope Q_scope.

(** [useState]: blink, mouthOpen, eyebrowLift. *)
Record Face := mkFace {
  blink : bool;
  mouthOpen : Q;
  eyebrowLift : Q
}.

Definition rest : Face := mkFace false 0 0.

Section Animation.

(** [Math.sin], of which only the range is used. *)
Variable sin : Q -> Q.

(** One call of [animate] in state [state], with the [time] of its closure;
    the new [time] comes back with the face. *)
Definition animate (state : AvatarState) (time : Q) (f : Face) : Q * Face :=
  let time1 :=
    match state with
    | SPEAKING => time + (2 # 10)
    | LISTENING => time + (1 # 10)
    | _ => time
    end in
  let mouth :=
    match state with
    | SPEAKING =>
        let value := (sin time1 + sin (time1 * (15 # 10)) * (5 # 10) + (15 # 10)) / 3 in
        (1 # 10) + value * (6 # 10)
    | LISTENING =>
        let value := (sin time1 + 1) / 2 in
        (1 # 10) + value * (15 # 100)
    | _ => 1 # 10
    end in
  let brow :=
    match state with
    | LISTENING => 15
    | THINKING => sin (time1 * 2) * 5 + 5
    | SPEAKING => sin time1 * 4 + 2
    | IDLE => 0
    end in
  (time1, mkFace (blink f) mouth brow).

(** [n] animation frames in a row. *)
Fixpoint frames (n : nat) (state : AvatarState) (time : Q) (f : Face) : Q * Face :=
  match n with
  | O => (time, f)
  | S n' => let (time1, f1) := animate state time f in frames n' state time1 f1
  end.

(** The effect on [state], observed [n] animation frames after it ran:
    [time] starts at 0; IDLE sets the resting mouth and brows, every other
    state calls [animate] at once and then once per frame. *)
Definition effect (state : AvatarState) (n : nat) (f : Face) : Face :=
  match state with
  | IDLE => mkFace (blink f) (1 # 10) 0
  | _ => snd (frames (S n) state 0 f)
  end.

End Animation.

(** [getEyeScaleY] *)
Definition getEyeScaleY (state : AvatarState) (f : Face) : Q :=
  if blink f then 1 # 10
  else match state with
       | LISTENING => 11 # 10
       | _ => 1
       end.

(** [opacity={mouthOpen > 0.3 ? 1 : 0}] of the tongue. *)
Definition tongueShown (f : Face) : bool := negb (Qle_bool (mouthOpen f) (3 # 10)).

(** [stroke={mouthOpen > 0.1 ? "none" : "#334155"}]: the closed mouth is
    drawn as a line. *)
Definition mouthOutlined (f : Face) : bool := Qle_bool (mouthOpen f) (1 # 10).

(** What the face shows while the avatar is in [state]: the bounds on the
    mouth opening and the eyebrow lift. *)
Definition shown (state : AvatarState) (f : Face) : Prop :=
  match state with
  | SPEAKING =>
      (1 # 10 <= mouthOpen f <= 7 # 10) /\ (-2 <= eyebrowLift f <= 6)
  | LISTENING =>
      (1 # 10 <= mouthOpen f <= 1 # 4) /\ eyebrowLift f = 15
  | THINKING =>
      mouthOpen f = (1 # 10) /\ (0 <= eyebrowLift f <= 10)
  | IDLE => mouthOpen f = (1 # 10) /\ eyebrowLift f = 0
  end.

End Avatar.

(** *** Further vocabulary: the refs *)

(** Every ref that holds an index holds the index of an object that
    exists. *)
Definition refs_valid (st : AppState) : Prop :=
  (forall k, streamRef st = Some k -> (k < List.length (lives st))%nat)
  /\ (forall k, inputProcessorRef st = Some k -> (k < List.length (lives st))%nat)
  /\ (forall k, liveSessionRef st = Some k -> (k < List.length (lives st))%nat)
  /\ (forall i, audioSourceRef st = Some i -> (i < List.length (sources st))%nat).

(** *** Further vocabulary: kinds of events *)

(** The three pieces of [handleSendMessage] that call [setMessages]. *)
Definition writes_conversation (e : Event) : bool :=
  match e with
  | SendEnter _ _ | SendText _ _ _ | SendCatch _ _ => true
  | _ => false
  end.

(** *** An encoder for the examples *)

(** The standard base64 encoding of a list of bytes, with padding; the
    examples use it where [arrayBufferToBase64] is called. *)
Definition base64_digit (n : Z) : ascii :=
  match String.get (Z.to_nat n)
          "ABCDEFGHIJKLMNOPQRSTUVWXYZabcdefghijklmnopqrstuvwxyz0123456789+/" with
  | Some c => c
  | None => "="%char
  end.

Fixpoint base64 (bytes : list Z) : string :=
  match bytes with
  | [] => EmptyString
  | [a] =>
      String (base64_digit (a / 4))
        (String (base64_digit (a mod 4 * 16)) "==")
  | [a; b] =>
      String (base64_digit (a / 4))
        (String (base64_digit (a mod 4 * 16 + b / 16))
           (String (base64_digit (b mod 16 * 4)) "="))
  | a :: b :: c :: rest =>
      String (base64_digit (a / 4))
        (String (base64_digit (a mod 4 * 16 + b / 16))
           (String (base64_digit (b mod 16 * 4 + c / 64))
              (String (base64_digit (c mod 64)) (base64 rest))))
  end.

(** * Properties *)

(** ** PCM conversion *)

Module PcmFacts.
Import Pcm.

Lemma Qtrunc_bounds (q : Q) (lo hi : Z) :
  (inject_Z lo <= q)%Q -> (q < inject_Z hi)%Q -> lo <= 0 -> 0 < hi ->
  lo <= Qtrunc q < hi.
Proof.
  destruct q as [n d]. unfold Qle, Qlt, Qtrunc. simpl.
  rewrite !Z.mul_1_r.
  intros Hlo Hhi Hl Hh.
  pose proof (Z.quot_rem' n (Zpos d)) as Hqr.
  assert (Hd : 0 < Zpos d) by lia.
  destruct (Z_le_gt_dec 0 n) as [Hn | Hn].
  - pose proof (Z.rem_bound_pos n (Zpos d) Hn Hd) as Hr.
    pose proof (Z.quot_pos n (Zpos d) Hn Hd) as Hq.
    split; [lia | ].
    destruct (Z_lt_le_dec (Z.quot n (Zpos d)) hi) as [Hlt | Hge]; [exact Hlt | exfalso].
    pose proof (Z.mul_le_mono_nonneg_l hi (Z.quot n (Zpos d)) (Zpos d) ltac:(lia) Hge).
    lia.
  - assert (Hn' : n <= 0) by lia.
    pose proof (Z.rem_bound_pos_neg n (Zpos d) Hd Hn') as Hr.
    assert (Hq : Z.quot n (Zpos d) <= 0)
      by (apply Z.quot_le_upper_bound; lia).
    split; [ | lia].
    destruct (Z_le_gt_dec lo (Z.quot n (Zpos d))) as [Hle | Hgt]; [exact Hle | exfalso].
    assert (Hs : Z.quot n (Zpos d) + 1 <= lo) by lia.
    pose proof (Z.mul_le_mono_nonneg_l _ _ (Zpos d) ltac:(lia) Hs).
    lia.
Qed.

Lemma ToInt16_in_range (q : Q) :
  (-32768 <= q)%Q -> (q < 32768)%Q -> ToInt16 q = Qtrunc q.
Proof.
  intros Hlo Hhi.
  assert (H : -32768 <= Qtrunc q < 32768)
    by (apply Qtrunc_bounds; [exact Hlo | exact Hhi | lia | lia]).
  unfold ToInt16.
  destruct (Z_lt_le_dec (Qtrunc q) 0) as [Hneg | Hpos].
  - replace (Qtrunc q mod 65536) with (Qtrunc q + 65536)
      by (apply Z.mod_unique with (q := -1); lia).
    destruct (Z.leb_spec 32768 (Qtrunc q + 65536)); lia.
  - rewrite Z.mod_small by lia.
    destruct (Z.leb_spec 32768 (Qtrunc q)); lia.
Qed.

Lemma ToInt16_range (q : Q) : -32768 <= ToInt16 q <= 32767.
Proof.
  unfold ToInt16.
  pose proof (Z.mod_pos_bound (Qtrunc q) 65536 ltac:(lia)).
  destruct (Z.leb_spec 32768 (Qtrunc q mod 65536)); lia.
Qed.

Lemma pcm_encode_length (l : list Q) : List.length (pcm_encode l) = List.length l.
Proof. unfold pcm_encode. apply length_map. Qed.

Lemma pcm_buffer_length (l : list Z) : List.length (pcm_buffer l) = (2 * List.length l)%nat.
Proof.
  unfold pcm_buffer. induction l as [| z l IH]; simpl; [reflexivity | lia].
Qed.

End PcmFacts.

Lemma Qtrunc_near (q : Q) :
  (q - 1 < inject_Z (Pcm.Qtrunc q))%Q /\ (inject_Z (Pcm.Qtrunc q) < q + 1)%Q.
Proof.
  destruct q as [n d]. unfold Pcm.Qtrunc, Qlt, Qminus, Qplus, Qopp, inject_Z. simpl.
  pose proof (Z.quot_rem' n (Zpos d)) as Hqr.
  pose proof (Z.rem_bound_abs n (Zpos d) ltac:(lia)) as Hr.
  rewrite !Z.mul_1_r. rewrite !Pos.mul_1_r.
  set (k := Z.quot n (Zpos d)) in *.
  set (r := Z.rem n (Zpos d)) in *.
  assert (Hk : k * Zpos d = n - r) by lia.
  rewrite Hk. lia.
Qed.

(** C1, as amended: for every sample [s] with [-1 <= s < 1] the capture path
    stores [s * 32768] truncated toward zero; the stored value is less than
    one unit away from [s * 32768] and inside the int16 range, so nothing
    wraps around. *)
Theorem C1_pcm_sample_truncates (s : Q) :
  (-1 <= s)%Q -> (s < 1)%Q ->
  Pcm.pcm_sample s = Pcm.Qtrunc (s * 32768)%Q
  /\ -32768 <= Pcm.pcm_sample s <= 32767
  /\ (s * 32768 - 1 < inject_Z (Pcm.pcm_sample s))%Q
  /\ (inject_Z (Pcm.pcm_sample s) < s * 32768 + 1)%Q.
Proof.
  intros Hlo Hhi.
  assert (E : Pcm.pcm_sample s = Pcm.Qtrunc (s * 32768)%Q).
  { unfold Pcm.pcm_sample. apply PcmFacts.ToInt16_in_range; lra. }
  split; [exact E | ].
  split; [apply PcmFacts.ToInt16_range | ].
  rewrite E. apply Qtrunc_near.
Qed.

Lemma C1_pcm_sample_truncates_witness :
  Pcm.pcm_sample (-1) = Pcm.Qtrunc (-1 * 32768)%Q
  /\ -32768 <= Pcm.pcm_sample (-1) <= 32767
  /\ (-1 * 32768 - 1 < inject_Z (Pcm.pcm_sample (-1)))%Q
  /\ (inject_Z (Pcm.pcm_sample (-1)) < -1 * 32768 + 1)%Q.
Proof.
  apply (C1_pcm_sample_truncates (-1)).
  - unfold Qle; simpl; lia.
  - unfold Qlt; simpl; lia.
Defined.

(** C1 as the specification states it fails: a sample whose scaled value has
    a fractional part of three quarters is stored as 1 where
    [round(s * 32767)] is 2, and the sample 1 is stored as -32768 where the
    saturating conversion gives 32767. *)
Lemma C1_counterexample :
  (-1 <= 7 # 131072)%Q /\ (7 # 131072 <= 1)%Q
  /\ Pcm.pcm_sample (7 # 131072) = 1
  /\ Pcm.spec_pcm_sample (7 # 131072) = 2
  /\ Pcm.pcm_sample 1 = -32768
  /\ Pcm.spec_pcm_sample 1 = 32767.
Proof.
  repeat split; try reflexivity; unfold Qle; simpl; lia.
Qed.

(** ** Playback scheduling *)

Lemma Qmax_keeps_left (c now : Q) : (now <= c)%Q -> Qmax c now = c.
Proof.
  intros H. unfold Qmax, GenericMinMax.gmax.
  destruct (Qcompare_spec c now) as [E | L | G]; try reflexivity.
  exfalso. apply (Qlt_not_le _ _ L). exact H.
Qed.

Lemma Qmax_ge_left (c now : Q) : (c <= Qmax c now)%Q.
Proof. apply Q.le_max_l. Qed.

Lemma Qmax_ge_right (c now : Q) : (now <= Qmax c now)%Q.
Proof. apply Q.le_max_r. Qed.

Lemma playAudio_scheduled_sources (m : AppMode) (now d : Q) (st : AppState) :
  sources (playAudio_scheduled m now d st)
  = sources st ++ [mkSource (Qmax (nextStartTimeRef st) now) d None m].
Proof. reflexivity. Qed.

Lemma playAudio_scheduled_cursor (m : AppMode) (now d : Q) (st : AppState) :
  nextStartTimeRef (playAudio_scheduled m now d st)
  = (Qmax (nextStartTimeRef st) now + d)%Q.
Proof. reflexivity. Qed.

Lemma schedule_all_sources (m : AppMode) (calls : list (Q * Q)) :
  forall st,
    sources (schedule_all m calls st)
    = sources st ++ scheduled_sources m (nextStartTimeRef st) calls.
Proof.
  induction calls as [| c rest IH]; intros st.
  - simpl. symmetry. apply app_nil_r.
  - change (schedule_all m (c :: rest) st)
      with (schedule_all m rest (playAudio_scheduled m (fst c) (snd c) st)).
    rewrite IH, playAudio_scheduled_sources, playAudio_scheduled_cursor.
    rewrite <- app_assoc. reflexivity.
Qed.

Lemma scheduled_sources_gapless (m : AppMode) (calls : list (Q * Q)) :
  forall start d,
    arrive_in_time (start + d)%Q calls = true ->
    gapless (mkSource start d None m :: scheduled_sources m (start + d)%Q calls).
Proof.
  induction calls as [| c rest IH]; intros start d H; simpl; [exact I | ].
  simpl in H. apply andb_prop in H. destruct H as [Hc Hrest].
  apply Qle_bool_iff in Hc.
  rewrite (Qmax_keeps_left _ _ Hc) in *.
  split; [reflexivity | ].
  apply IH. exact Hrest.
Qed.

Lemma scheduled_sources_ascend (m : AppMode) (calls : list (Q * Q)) :
  forall start d,
    (0 <= d)%Q -> durations_ok calls = true ->
    starts_ascend (mkSource start d None m :: scheduled_sources m (start + d)%Q calls).
Proof.
  induction calls as [| c rest IH]; intros start d Hd H; simpl; [exact I | ].
  simpl in H. apply andb_prop in H. destruct H as [Hc Hrest].
  apply Qle_bool_iff in Hc.
  split.
  - pose proof (Qmax_ge_left (start + d) (fst c)). lra.
  - apply IH; assumption.
Qed.

Lemma scheduled_sources_durations (m : AppMode) (calls : list (Q * Q)) :
  forall cursor, map src_duration (scheduled_sources m cursor calls) = map snd calls.
Proof.
  induction calls as [| c rest IH]; intros cursor; simpl; [reflexivity | ].
  rewrite IH. reflexivity.
Qed.

(** C2: a call of the scheduling part of [playAudio] starts its buffer at
    the larger of the cursor and the device clock and leaves the cursor at
    that start plus the buffer's length.  For any further calls, the sources
    handed to the device are the ones listed by [scheduled_sources]; when
    every call is made before the audio scheduled so far has run out, each
    buffer starts exactly where the one before it ends, and when no buffer
    has a negative length the start times never go down. *)
Theorem C2_playAudio_gapless (m : AppMode) (st : AppState) (now duration : Q)
    (calls : list (Q * Q)) :
  let st1 := playAudio_scheduled m now duration st in
  let startTime := Qmax (nextStartTimeRef st) now in
  let new :=
    mkSource startTime duration None m
      :: scheduled_sources m (startTime + duration)%Q calls in
  sources st1 = sources st ++ [mkSource startTime duration None m]
  /\ nextStartTimeRef st1 = (startTime + duration)%Q
  /\ sources (schedule_all m calls st1) = sources st ++ new
  /\ map src_duration new = duration :: map snd calls
  /\ (arrive_in_time (nextStartTimeRef st1) calls = true -> gapless new)
  /\ (durations_ok ((now, duration) :: calls) = true -> starts_ascend new).
Proof.
  intros st1 startTime new.
  split; [reflexivity | ].
  split; [reflexivity | ].
  split.
  { rewrite schedule_all_sources. unfold st1.
    rewrite playAudio_scheduled_sources, playAudio_scheduled_cursor.
    rewrite <- app_assoc. reflexivity. }
  split.
  { unfold new. simpl. rewrite scheduled_sources_durations. reflexivity. }
  split.
  - intros H. apply scheduled_sources_gapless. exact H.
  - intros H. simpl in H. apply andb_prop in H. destruct H as [Hd Hrest].
    apply Qle_bool_iff in Hd.
    apply scheduled_sources_ascend; assumption.
Qed.

Lemma C2_playAudio_gapless_witness :
  gapless
    [mkSource 0 (1 # 2) None LIVE_VOICE;
     mkSource (0 + (1 # 2)) (1 # 2) None LIVE_VOICE;
     mkSource (0 + (1 # 2) + (1 # 2)) 1 None LIVE_VOICE]
  /\ starts_ascend
    [mkSource 0 (1 # 2) None LIVE_VOICE;
     mkSource (0 + (1 # 2)) (1 # 2) None LIVE_VOICE;
     mkSource (0 + (1 # 2) + (1 # 2)) 1 None LIVE_VOICE].
Proof.
  pose proof (C2_playAudio_gapless LIVE_VOICE (initial true 0) 0 (1 # 2)
                [((1 # 4)%Q, (1 # 2)%Q); ((1 # 2)%Q, 1%Q)]) as H.
  destruct H as (_ & _ & _ & _ & Hgap & Hasc).
  split.
  - apply Hgap. reflexivity.
  - apply Hasc. reflexivity.
Defined.

(** ** Handlers and the list of sources *)

Ltac unfold_handlers :=
  unfold step, handleSendMessage_enter, handleSendMessage_text, handleSendMessage_tts,
    handleSendMessage_catch, playAudio_scheduled, playAudio_failed, source_onended,
    startLiveSession_enter, startLiveSession_resume, live_onopen,
    processor_onaudioprocess, live_onmessage, live_onclose, live_onerror in *;
  unfold handleSendMessage_finally, playAudio_enter, startLiveSession_catch,
    stopLiveSession in *.

Ltac break_match :=
  match goal with
  | |- context [match ?x with _ => _ end] => destruct x eqn:?
  end.

Ltac step_cases e := destruct e; unfold_handlers; cbn; repeat (break_match; cbn).

Lemma update_at_length {A} (f : A -> A) (l : list A) :
  forall i, List.length (update_at i f l) = List.length l.
Proof.
  induction l as [| x l IH]; intros [| i]; simpl; try reflexivity.
  rewrite IH. reflexivity.
Qed.

Lemma nth_error_update_at {A} (f : A -> A) (l : list A) :
  forall i j,
    nth_error (update_at i f l) j
    = if Nat.eqb j i then option_map f (nth_error l j) else nth_error l j.
Proof.
  induction l as [| x l IH]; intros [| i] [| j]; simpl; try reflexivity.
  - destruct (Nat.eqb _ _); reflexivity.
  - apply IH.
Qed.

Lemma stop_source_start (now : Q) (src : BufferSource) :
  src_start (stop_source now src) = src_start src.
Proof. unfold stop_source. destruct (src_stopped src); reflexivity. Qed.

Lemma stop_source_silent (now t : Q) (src : BufferSource) :
  sounding_after t (stop_source now src) = false.
Proof.
  unfold stop_source, sounding_after.
  destruct (src_stopped src) eqn:E; simpl; [rewrite E |]; reflexivity.
Qed.

(** What a step can do to the list of sources: nothing, stop one of them,
    or append the one that [playAudio] schedules. *)
Lemma step_sources (b64 : list Z -> string) (e : Event) (st : AppState) :
  sources (step b64 e st) = sources st
  \/ (exists i now, sources (step b64 e st) = update_at i (stop_source now) (sources st))
  \/ (exists m now d,
        e = AudioScheduled m now d
        /\ sources (step b64 e st)
           = sources st ++ [mkSource (Qmax (nextStartTimeRef st) now) d None m]).
Proof.
  step_cases e; try (left; reflexivity);
    try (right; left; eexists; eexists; reflexivity).
  right; right. do 3 eexists. split; reflexivity.
Qed.

Lemma step_ref_is_last (b64 : list Z -> string) (e : Event) (st : AppState) :
  ref_is_last st -> ref_is_last (step b64 e st).
Proof.
  unfold ref_is_last. intros H.
  step_cases e; try assumption;
    repeat match goal with
           | E : context [List.length (update_at _ _ _)] |- _ =>
               rewrite update_at_length in E
           | E : context [List.length (_ ++ _)] |- _ =>
               rewrite length_app in E; simpl in E
           end;
    try (f_equal; lia);
    match goal with
    | E : List.length (sources st) = _ |- _ => rewrite E in H; exact H
    end.
Qed.

(** In every state the component can reach, [audioSourceRef] holds the
    source that was scheduled last. *)
Lemma run_ref_is_last (b64 : list Z -> string) (es : list Event) :
  forall st, ref_is_last st -> ref_is_last (run b64 es st).
Proof.
  induction es as [| e es IH]; intros st H; [exact H | ].
  change (run b64 (e :: es) st) with (run b64 es (step b64 e st)).
  apply IH. apply step_ref_is_last. exact H.
Qed.

(** The output context, once made, stays; [startLiveSession] makes it. *)
Lemma step_keeps_context (b64 : list Z -> string) (e : Event) (st : AppState) :
  audioContextRef st = true -> audioContextRef (step b64 e st) = true.
Proof.
  intros H. step_cases e; try assumption; reflexivity.
Qed.

Lemma startLiveSession_enter_context (st : AppState) :
  aiRef st = true -> audioContextRef (startLiveSession_enter st) = true.
Proof.
  intros H. unfold startLiveSession_enter. rewrite H. cbn.
  destruct (audioContextRef st) eqn:E; [exact E | reflexivity].
Qed.

(** ** Interruption *)

Lemma late_sources_step (b64 : list Z -> string) (n : nat) (t : Q) (e : Event)
    (st : AppState) :
  (n <= List.length (sources st))%nat ->
  match event_clock e with Some now => Qle_bool t now | None => true end = true ->
  late_sources n t (sources st) ->
  late_sources n t (sources (step b64 e st))
  /\ (n <= List.length (sources (step b64 e st)))%nat.
Proof.
  intros Hn Hclock Hlate.
  destruct (step_sources b64 e st) as [E | [(i & now & E) | (m & now & d & Ee & E)]];
    rewrite E.
  - split; assumption.
  - split; [ | rewrite update_at_length; exact Hn].
    intros j src Hj Hnth. rewrite nth_error_update_at in Hnth.
    destruct (Nat.eqb j i).
    + destruct (nth_error (sources st) j) as [src0 |] eqn:E0; [ | discriminate].
      simpl in Hnth. injection Hnth as <-. rewrite stop_source_start.
      apply (Hlate j src0 Hj E0).
    + apply (Hlate j src Hj Hnth).
  - subst e. simpl in Hclock. apply Qle_bool_iff in Hclock.
    split; [ | rewrite length_app; simpl; lia].
    intros j src Hj Hnth.
    destruct (Nat.lt_ge_cases j (List.length (sources st))) as [Hlt | Hge].
    + rewrite nth_error_app1 in Hnth by exact Hlt. apply (Hlate j src Hj Hnth).
    + rewrite nth_error_app2 in Hnth by exact Hge.
      destruct (j - List.length (sources st))%nat as [| k]; simpl in Hnth.
      * injection Hnth as <-. simpl.
        pose proof (Qmax_ge_right (nextStartTimeRef st) now). lra.
      * destruct k; discriminate.
Qed.

Lemma late_sources_run (b64 : list Z -> string) (n : nat) (t : Q) (es : list Event) :
  forall st,
    (n <= List.length (sources st))%nat ->
    clock_not_before t es = true ->
    late_sources n t (sources st) ->
    late_sources n t (sources (run b64 es st)).
Proof.
  induction es as [| e es IH]; intros st Hn Hclock Hlate; [exact Hlate | ].
  simpl in Hclock. apply andb_prop in Hclock. destruct Hclock as [He Hes].
  destruct (late_sources_step b64 n t e st Hn He Hlate) as [Hlate' Hn'].
  change (run b64 (e :: es) st) with (run b64 es (step b64 e st)).
  apply IH; assumption.
Qed.

Lemma live_onmessage_interrupted_sources (audioData : option string) (now : Q)
    (st : AppState) :
  sources (live_onmessage audioData true now st)
  = match audioSourceRef st with
    | Some i => update_at i (stop_source now) (sources st)
    | None => sources st
    end.
Proof.
  unfold live_onmessage, playAudio_enter.
  destruct (truthy audioData), (audioContextRef st) eqn:Ectx; cbn;
    destruct (audioSourceRef st); cbn; rewrite ?Ectx; cbn;
    repeat (break_match; cbn); reflexivity.
Qed.

Lemma live_onmessage_interrupted_cursor (audioData : option string) (now : Q)
    (st : AppState) :
  audioContextRef st = true ->
  nextStartTimeRef (live_onmessage audioData true now st) = now
  /\ avatarState (live_onmessage audioData true now st) = LISTENING.
Proof.
  intros Hctx. unfold live_onmessage, playAudio_enter. rewrite Hctx.
  destruct (truthy audioData); cbn;
    destruct (audioSourceRef st); cbn; rewrite Hctx; cbn; split; reflexivity.
Qed.

(** C3, on the code: an interruption that arrives while the output context
    exists sets the cursor to the device clock and the avatar to LISTENING,
    and every buffer scheduled afterwards, at once or after any events whose
    clock readings are not earlier, starts at that clock reading or later.
    But the handler calls [stop()] on one source only, the one held in
    [audioSourceRef], which in every state the component can reach is the
    one scheduled last; every other source is left as it was, so a buffer
    that is playing and buffers that wait behind it are not silenced. *)
Theorem C3_interruption_resets_cursor (b64 : list Z -> string) (st : AppState)
    (audioData : option string) (now : Q) :
  audioContextRef st = true ->
  let st' := live_onmessage audioData true now st in
  nextStartTimeRef st' = now
  /\ avatarState st' = LISTENING
  /\ (forall i src,
        audioSourceRef st = Some i -> nth_error (sources st') i = Some src ->
        sounding_after now src = false)
  /\ (forall j,
        audioSourceRef st <> Some j ->
        nth_error (sources st') j = nth_error (sources st) j)
  /\ (forall es0 apiKey date i,
        st = run b64 es0 (initial apiKey date) -> audioSourceRef st = Some i ->
        List.length (sources st) = S i)
  /\ (forall m now' d,
        sources (playAudio_scheduled m now' d st')
        = sources st' ++ [mkSource (Qmax now now') d None m]
        /\ (now <= Qmax now now')%Q)
  /\ (forall es j src,
        clock_not_before now es = true ->
        (List.length (sources st') <= j)%nat ->
        nth_error (sources (run b64 es st')) j = Some src ->
        (now <= src_start src)%Q).
Proof.
  intros Hctx st'.
  destruct (live_onmessage_interrupted_cursor audioData now st Hctx) as [Hcur Hav].
  pose proof (live_onmessage_interrupted_sources audioData now st) as Hsrc.
  fold st' in Hcur, Hav, Hsrc.
  split; [exact Hcur | ]. split; [exact Hav | ].
  split.
  { intros i src Hi Hnth. rewrite Hsrc, Hi, nth_error_update_at, Nat.eqb_refl in Hnth.
    destruct (nth_error (sources st) i) as [src0 |]; [ | discriminate].
    simpl in Hnth. injection Hnth as <-. apply stop_source_silent. }
  split.
  { intros j Hj. rewrite Hsrc. destruct (audioSourceRef st) as [i |]; [ | reflexivity].
    rewrite nth_error_update_at.
    destruct (Nat.eqb_spec j i) as [-> | _]; [congruence | reflexivity]. }
  split.
  { intros es0 apiKey date i Hst Hi.
    assert (Hlast : ref_is_last st)
      by (rewrite Hst; apply run_ref_is_last; reflexivity).
    unfold ref_is_last in Hlast. rewrite Hi in Hlast.
    destruct (List.length (sources st)); congruence. }
  split.
  { intros m now' d. rewrite playAudio_scheduled_sources, Hcur.
    split; [reflexivity | apply Qmax_ge_left]. }
  intros es j src Hclock Hj Hnth.
  apply (late_sources_run b64 (List.length (sources st')) now es st'
           (Nat.le_refl _) Hclock) with (j := j); try assumption.
  intros j' src' Hj' Hnth'.
  apply nth_error_None in Hj'. congruence.
Qed.

Lemma C3_interruption_resets_cursor_witness :
  nextStartTimeRef (live_onmessage None true (1 # 2) three_queued) = (1 # 2)%Q
  /\ avatarState (live_onmessage None true (1 # 2) three_queued) = LISTENING
  /\ nth_error (sources (live_onmessage None true (1 # 2) three_queued)) 0
     = nth_error (sources three_queued) 0
  /\ nth_error (sources (live_onmessage None true (1 # 2) three_queued)) 1
     = nth_error (sources three_queued) 1.
Proof.
  pose proof (C3_interruption_resets_cursor (fun _ => EmptyString) three_queued None
                (1 # 2) eq_refl) as H.
  destruct H as (Hcur & Hav & _ & Hrest & _).
  split; [exact Hcur | ]. split; [exact Hav | ].
  split; apply Hrest; intros E; vm_compute in E; discriminate E.
Defined.

(** C3 at the failing input.  With three one-second buffers queued from
    clock 0 and an interruption at clock 1/2, the handler stops the third
    buffer only: the first is still playing and the second, not yet started,
    is still due to play. *)
Lemma C3_failing_input :
  audioContextRef three_queued = true
  /\ audioSourceRef three_queued = Some 2%nat
  /\ option_map (playing_at (1 # 2))
       (nth_error (sources (live_onmessage None true (1 # 2) three_queued)) 0)
     = Some true
  /\ option_map (pending_at (1 # 2))
       (nth_error (sources (live_onmessage None true (1 # 2) three_queued)) 1)
     = Some true
  /\ option_map src_stopped
       (nth_error (sources (live_onmessage None true (1 # 2) three_queued)) 2)
     = Some (Some (1 # 2)%Q).
Proof. vm_compute. repeat split; reflexivity. Qed.

(** ** End of a segment *)








(** The same test on binary64 numbers gives the same answer. *)
Example onended_binary64_short_tail :
  Binary64.onended_test Binary64.short_tail_cursor PrimFloat.one = true.
Proof. reflexivity. Qed.

(** ** Teardown *)

Lemma stopLiveSession_idempotent (st : AppState) :
  stopLiveSession (stopLiveSession st) = stopLiveSession st.
Proof.
  destruct st as [md ms inp ld av co er ai ctx lsr asr nst [p |] [k |] srcs lv];
    reflexivity.
Qed.

Lemma stopLiveSession_lives (st : AppState) :
  lives (stopLiveSession st)
  = let l1 := match streamRef st with
              | Some k => update_at k stop_tracks (lives st)
              | None => lives st
              end in
    match inputProcessorRef st with
    | Some k => update_at k disconnect l1
    | None => l1
    end.
Proof.
  destruct st as [md ms inp ld av co er ai ctx lsr asr nst [p |] [k |] srcs lv];
    reflexivity.
Qed.

Lemma nth_error_update_at_same {A} (f : A -> A) (l : list A) (k : nat) (x : A) :
  nth_error (update_at k f l) k = Some x ->
  exists y, nth_error l k = Some y /\ x = f y.
Proof.
  rewrite nth_error_update_at, Nat.eqb_refl.
  destruct (nth_error l k) as [y |]; simpl; [ | discriminate].
  intros H. injection H as <-. exists y. split; reflexivity.
Qed.

Lemma nth_error_update_at_keeps {A} (P : A -> Prop) (f : A -> A) (l : list A)
    (i k : nat) (x : A) :
  (forall y, P y -> P (f y)) ->
  (forall y, nth_error l k = Some y -> P y) ->
  nth_error (update_at i f l) k = Some x -> P x.
Proof.
  intros Hf Hl. rewrite nth_error_update_at.
  destruct (Nat.eqb k i); [ | apply Hl].
  destruct (nth_error l k) as [y |]; simpl; [ | discriminate].
  intros H. injection H as <-. apply Hf. apply Hl. reflexivity.
Qed.

(** C5, on the code: [stopLiveSession] can be called in any state and any
    number of times; it sets [isConnected] to false and the avatar to IDLE,
    stops the tracks of the stream in [streamRef], disconnects the processor
    in [inputProcessorRef] and clears both refs, and a second call changes
    nothing; the capture callback never touches the avatar.  But the call
    does not read [liveSessionRef], which is left as it was, and does not
    silence [onmessage]: a message that arrives after the call still sets
    the avatar, LISTENING on an interruption, SPEAKING once its audio is
    scheduled. *)
Theorem C5_stopLiveSession_idempotent (b64 : list Z -> string) (st : AppState) :
  let st1 := stopLiveSession st in
  stopLiveSession st1 = st1
  /\ avatarState st1 = IDLE
  /\ isConnected st1 = false
  /\ streamRef st1 = None
  /\ inputProcessorRef st1 = None
  /\ (forall k io,
        streamRef st = Some k -> nth_error (lives st1) k = Some io ->
        tracksLive io = false)
  /\ (forall k io,
        inputProcessorRef st = Some k -> nth_error (lives st1) k = Some io ->
        processorToOut io = false)
  /\ (forall k inputData,
        avatarState (processor_onaudioprocess b64 k inputData st1) = IDLE)
  /\ liveSessionRef st1 = liveSessionRef st
  /\ (forall audioData now,
        avatarState (live_onmessage audioData true now st1) = LISTENING)
  /\ (forall m now d, avatarState (playAudio_scheduled m now d st1) = SPEAKING).
Proof.
  intros st1.
  split; [apply stopLiveSession_idempotent | ].
  assert (Hfields : avatarState st1 = IDLE /\ isConnected st1 = false
                    /\ streamRef st1 = None /\ inputProcessorRef st1 = None
                    /\ liveSessionRef st1 = liveSessionRef st).
  { unfold st1.
    destruct st as [md ms inp ld av co er ai ctx lsr asr nst [p |] [k |] srcs lv];
      repeat split; reflexivity. }
  destruct Hfields as (Hav & Hcon & Hstr & Hproc & Hlive).
  repeat (split; [assumption | ]).
  split.
  { intros k io Hk Hnth. unfold st1 in Hnth.
    rewrite stopLiveSession_lives, Hk in Hnth. cbn in Hnth.
    assert (Hstop : forall io', nth_error (update_at k stop_tracks (lives st)) k = Some io' ->
                                tracksLive io' = false).
    { intros io' H. apply nth_error_update_at_same in H.
      destruct H as (y & _ & ->). reflexivity. }
    destruct (inputProcessorRef st) as [p |]; [ | apply Hstop; exact Hnth].
    apply (nth_error_update_at_keeps (fun x => tracksLive x = false) disconnect
             (update_at k stop_tracks (lives st)) p k io);
      [intros y Hy; exact Hy | exact Hstop | exact Hnth]. }
  split.
  { intros k io Hk Hnth. unfold st1 in Hnth.
    rewrite stopLiveSession_lives, Hk in Hnth. cbn in Hnth.
    apply nth_error_update_at_same in Hnth.
    destruct Hnth as (y & _ & ->). reflexivity. }
  split.
  { intros k inputData. unfold processor_onaudioprocess. cbn. exact Hav. }
  split; [exact Hlive | ].
  split.
  { intros audioData now. unfold live_onmessage.
    destruct (truthy audioData); cbn; repeat (break_match; cbn); reflexivity. }
  intros m now d. reflexivity.
Qed.

Lemma C5_stopLiveSession_idempotent_witness :
  option_map tracksLive (nth_error (lives live_stopped) 0) = Some false
  /\ option_map processorToOut (nth_error (lives live_stopped) 0) = Some false
  /\ liveSessionRef (stopLiveSession live_open) = liveSessionRef live_open
  /\ avatarState (live_onmessage None true 1 (stopLiveSession live_open)) = LISTENING.
Proof.
  destruct (C5_stopLiveSession_idempotent (fun _ => EmptyString) live_open)
    as (_ & _ & _ & _ & _ & Htracks & Hproc & _ & Hsession & Hmessage & _).
  split; [ | split; [ | split; [exact Hsession | exact (Hmessage None 1%Q)]]].
  - destruct (nth_error (lives live_stopped) 0) as [io |] eqn:E.
    + cbn. rewrite (Htracks 0%nat io eq_refl E). reflexivity.
    + vm_compute in E. discriminate E.
  - destruct (nth_error (lives live_stopped) 0) as [io |] eqn:E.
    + cbn. rewrite (Hproc 0%nat io eq_refl E). reflexivity.
    + vm_compute in E. discriminate E.
Defined.

(** C5 at the failing input.  After [stopLiveSession] on an open live
    session the connection is still referenced, and a message arriving on it
    moves the avatar away from IDLE: an interruption shows LISTENING, a
    scheduled audio payload shows SPEAKING. *)
Lemma C5_failing_input :
  avatarState live_stopped = IDLE
  /\ stopLiveSession live_stopped = live_stopped
  /\ liveSessionRef live_stopped = Some 0%nat
  /\ avatarState (live_onmessage None true 1 live_stopped) = LISTENING
  /\ avatarState
       (playAudio_scheduled LIVE_VOICE 1 1
          (live_onmessage (Some "UklGRg==") false 1 live_stopped))
     = SPEAKING.
Proof. vm_compute. repeat split; reflexivity. Qed.

(** ** Failure to open a live session *)

(** The other failure paths put the avatar back to IDLE. *)
Lemma failure_paths_reset_avatar (uuid : string) (date : Z) (st : AppState) :
  avatarState (live_onerror st) = IDLE
  /\ avatarState (live_onclose st) = IDLE
  /\ avatarState (handleSendMessage_catch uuid date st) = IDLE.
Proof.
  destruct st as [md ms inp ld av co er ai ctx lsr asr nst [p |] [k |] srcs lv];
    repeat split; reflexivity.
Qed.

(** C6, on the code: when [getUserMedia] rejects, [startLiveSession] reports
    the error and clears [isConnected], and no stream, processor or
    connection is stored, but the avatar, set to LISTENING on entry, is left
    at LISTENING. *)
Theorem C6_mic_denied_leaves_listening (st : AppState) :
  aiRef st = true ->
  let st' := startLiveSession_resume MicDenied (startLiveSession_enter st) in
  error st' = Some ERR_MIC
  /\ isConnected st' = false
  /\ streamRef st' = streamRef st
  /\ inputProcessorRef st' = inputProcessorRef st
  /\ liveSessionRef st' = liveSessionRef st
  /\ lives st' = lives st
  /\ avatarState st' = LISTENING.
Proof.
  intros Hai. unfold startLiveSession_resume, startLiveSession_catch,
    startLiveSession_enter. rewrite Hai. cbn.
  destruct (audioContextRef st) eqn:E; cbn; rewrite ?E; repeat split; reflexivity.
Qed.

Lemma C6_mic_denied_leaves_listening_witness :
  avatarState (initial true 0) = IDLE
  /\ avatarState (startLiveSession_resume MicDenied (startLiveSession_enter (initial true 0)))
     = LISTENING.
Proof.
  split; [reflexivity | ].
  apply (C6_mic_denied_leaves_listening (initial true 0)). reflexivity.
Defined.

(** ** Writes to the cursor *)

(** C7, as amended: the cursor is written by three handlers only.  The
    scheduling part of [playAudio] never lowers it and leaves it at or after
    the device clock; the reset before a new spoken reply and the
    interruption handler assign the device clock, whatever the cursor was. *)
Theorem C7_cursor_writes (b64 : list Z -> string) (e : Event) (st : AppState) :
  event_duration_ok e = true ->
  let c := nextStartTimeRef st in
  let c' := nextStartTimeRef (step b64 e st) in
  c' = c
  \/ (exists m now d,
        e = AudioScheduled m now d /\ c' = (Qmax c now + d)%Q
        /\ (c <= c')%Q /\ (now <= c')%Q)
  \/ (exists a now, e = SendTts a now /\ c' = now)
  \/ (exists a now, e = LiveMessage a true now /\ c' = now).
Proof.
  intros Hd c c'. unfold c, c'. clear c c'.
  destruct e; try (left; reflexivity).
  - (* ClickHome *)
    left. unfold step.
    destruct st as [md ms inp ld av co er ai ctx lsr asr nst [p |] [k |] srcs lv];
      reflexivity.
  - (* SendEnter *)
    left. unfold step, handleSendMessage_enter.
    destruct (trim_is_empty (input st) || negb (aiRef st)); reflexivity.
  - (* SendTts *)
    unfold step, handleSendMessage_tts, playAudio_enter, handleSendMessage_finally.
    destruct (truthy audioData); [ | left; reflexivity].
    destruct st as [md ms inp ld av co er ai [|] lsr asr nst p k srcs lv].
    + right; right; left. exists audioData, now. split; reflexivity.
    + left. reflexivity.
  - (* AudioScheduled *)
    right; left. exists m, now, duration. cbn in Hd. apply Qle_bool_iff in Hd.
    split; [reflexivity | ]. split; [reflexivity | ].
    change (nextStartTimeRef (step b64 (AudioScheduled m now duration) st))
      with (Qmax (nextStartTimeRef st) now + duration)%Q.
    pose proof (Qmax_ge_left (nextStartTimeRef st) now).
    pose proof (Qmax_ge_right (nextStartTimeRef st) now).
    split; lra.
  - (* SourceEnded *)
    left. unfold step, source_onended.
    destruct (nth_error (sources st) i); [ | reflexivity].
    destruct (Qle_bool _ _); reflexivity.
  - (* LiveEnter *)
    left. unfold step, startLiveSession_enter.
    destruct (negb (aiRef st)); [reflexivity | ].
    cbn. destruct (audioContextRef st); reflexivity.
  - (* LiveResume *)
    left. destruct r; reflexivity.
  - (* LiveMessage *)
    unfold step, live_onmessage, playAudio_enter.
    destruct interrupted.
    + destruct (truthy audioData);
        destruct st as [md ms inp ld av co er ai [|] lsr [i |] nst p k srcs lv];
        solve [ left; reflexivity
              | right; right; right; exists audioData, now; split; reflexivity ].
    + left. destruct (truthy audioData); [ | reflexivity].
      destruct (audioContextRef st); reflexivity.
  - (* LiveError *)
    left. unfold step, live_onerror.
    destruct st as [md ms inp ld av co er ai ctx lsr asr nst [p |] [k |] srcs lv];
      reflexivity.
  - (* LiveStop *)
    left. unfold step.
    destruct st as [md ms inp ld av co er ai ctx lsr asr nst [p |] [k |] srcs lv];
      reflexivity.
  - (* Unmount *)
    left. unfold step.
    destruct st as [md ms inp ld av co er ai ctx lsr asr nst [p |] [k |] srcs lv];
      reflexivity.
Qed.

Lemma C7_cursor_writes_witness :
  let e := AudioScheduled LIVE_VOICE 0 1 in
  let c := nextStartTimeRef live_started in
  let c' := nextStartTimeRef (step (fun _ => EmptyString) e live_started) in
  c' = c
  \/ (exists m now d,
        e = AudioScheduled m now d /\ c' = (Qmax c now + d)%Q
        /\ (c <= c')%Q /\ (now <= c')%Q)
  \/ (exists a now, e = SendTts a now /\ c' = now)
  \/ (exists a now, e = LiveMessage a true now /\ c' = now).
Proof.
  exact (C7_cursor_writes (fun _ => EmptyString) (AudioScheduled LIVE_VOICE 0 1)
           live_started eq_refl).
Defined.

(** C7 as the specification states it fails.  With three seconds of audio
    queued, an interruption at clock 1/2 takes the cursor from 3 down to
    1/2; with a ten-second spoken reply queued, the reset before the next
    spoken reply at clock 5 takes it from 10 down to 5. *)
Lemma C7_counterexample :
  (nextStartTimeRef (live_onmessage None true (1 # 2) three_queued)
   < nextStartTimeRef three_queued)%Q
  /\ (nextStartTimeRef (handleSendMessage_tts (Some "UklGRg==") 5 text_spoken)
      < nextStartTimeRef text_spoken)%Q.
Proof. vm_compute. split; reflexivity. Qed.

(** ** Capture *)

Lemma Forall_update_at {A} (P : A -> Prop) (f : A -> A) (l : list A) :
  (forall x, P x -> P (f x)) -> Forall P l -> forall i, Forall P (update_at i f l).
Proof.
  intros Hf Hl. induction Hl as [| x l Hx Hl IH]; intros [| i]; simpl;
    constructor; auto.
Qed.

Lemma step_live_format (b64 : list Z -> string) (e : Event) (st : AppState) :
  Forall live_format_ok (lives st) -> Forall live_format_ok (lives (step b64 e st)).
Proof.
  intros H.
  assert (Hfresh : Forall live_format_ok (lives st ++ [fresh_live])).
  { apply Forall_app. split; [exact H | ]. constructor; [ | constructor].
    split; reflexivity. }
  step_cases e; try assumption;
    repeat (apply Forall_update_at;
            [ intros x Hx; try break_match; exact Hx | ]);
    assumption.
Qed.

Lemma run_live_format (b64 : list Z -> string) (es : list Event) :
  forall st,
    Forall live_format_ok (lives st) -> Forall live_format_ok (lives (run b64 es st)).
Proof.
  induction es as [| e es IH]; intros st H; [exact H | ].
  change (run b64 (e :: es) st) with (run b64 es (step b64 e st)).
  apply IH. apply step_live_format. exact H.
Qed.

Lemma capture_all_sent (b64 : list Z -> string) (k : nat) (frames : list (list Q)) :
  forall st io,
    nth_error (lives st) k = Some io ->
    onaudioprocessSet io = true ->
    exists io',
      nth_error (lives (capture_all b64 k frames st)) k = Some io'
      /\ sent io' = sent io ++ map (frame_media b64) frames.
Proof.
  induction frames as [| f frames IH]; intros st io Hnth Hset.
  - exists io. split; [exact Hnth | symmetry; apply app_nil_r].
  - change (capture_all b64 k (f :: frames) st)
      with (capture_all b64 k frames (processor_onaudioprocess b64 k f st)).
    destruct (IH (processor_onaudioprocess b64 k f st) (send_frame b64 f io))
      as (io' & Hnth' & Hsent).
    + unfold processor_onaudioprocess. cbn.
      rewrite nth_error_update_at, Nat.eqb_refl, Hnth. cbn. rewrite Hset. reflexivity.
    + exact Hset.
    + exists io'. split; [exact Hnth' | ].
      rewrite Hsent. cbn. rewrite <- app_assoc. reflexivity.
Qed.

(** ** Assignments to the avatar state *)

(** C9, as amended: a handler either leaves the avatar state as it is or
    sets it to a value fixed by the handler, whatever the state was:
    THINKING when a text is submitted, IDLE when the spoken reply arrives,
    SPEAKING when a buffer is scheduled, LISTENING or IDLE when a segment
    ends, LISTENING when a live session is started or interrupted, IDLE on
    close, error, stop, the home button and a failed text request. *)
Theorem C9_avatar_assignments (b64 : list Z -> string) (e : Event) (st : AppState) :
  avatarState (step b64 e st) = avatarState st
  \/ In (avatarState (step b64 e st)) (assigns e).
Proof.
  destruct e; try (left; reflexivity).
  - right. unfold step.
    destruct st as [md ms inp ld av co er ai ctx lsr asr nst [p |] [k |] srcs lv];
      left; reflexivity.
  - unfold step, handleSendMessage_enter.
    destruct (trim_is_empty (input st) || negb (aiRef st));
      [left; reflexivity | right; left; reflexivity].
  - right. left. unfold step, handleSendMessage_tts, playAudio_enter.
    destruct (truthy audioData); [ | reflexivity].
    destruct st as [md ms inp ld av co er ai [|] lsr asr nst p k srcs lv]; reflexivity.
  - right. left. reflexivity.
  - right. left. reflexivity.
  - unfold step, source_onended.
    destruct (nth_error (sources st) i) as [src |]; [ | left; reflexivity].
    destruct (Qle_bool _ _); [ | left; reflexivity].
    right. destruct (AppMode_eqb (src_mode src) LIVE_VOICE); cbn; auto.
  - unfold step, startLiveSession_enter.
    destruct (negb (aiRef st)); [left; reflexivity | right; left].
    cbn. destruct (audioContextRef st); reflexivity.
  - left. destruct r; reflexivity.
  - unfold step, live_onmessage, playAudio_enter.
    destruct interrupted.
    + right. left.
      destruct (truthy audioData);
        destruct st as [md ms inp ld av co er ai [|] lsr [i |] nst p k srcs lv];
        reflexivity.
    + left. destruct (truthy audioData); [ | reflexivity].
      destruct (audioContextRef st); reflexivity.
  - right. left. reflexivity.
  - right. left. unfold step, live_onerror.
    destruct st as [md ms inp ld av co er ai ctx lsr asr nst [p |] [k |] srcs lv];
      reflexivity.
  - right. left. unfold step.
    destruct st as [md ms inp ld av co er ai ctx lsr asr nst [p |] [k |] srcs lv];
      reflexivity.
  - right. left. unfold step.
    destruct st as [md ms inp ld av co er ai ctx lsr asr nst [p |] [k |] srcs lv];
      reflexivity.
Qed.

(** C9 as the specification states it fails.  Submitting a text takes the
    avatar from IDLE to THINKING, and scheduling the spoken reply takes it
    from IDLE to SPEAKING; the table has no row from IDLE to either. *)
Lemma C9_counterexample :
  avatarState text_ready = IDLE
  /\ avatarState (handleSendMessage_enter "u1" 1 text_ready) = THINKING
  /\ spec_table_allows IDLE THINKING = false
  /\ avatarState
       (handleSendMessage_tts (Some "UklGRg==") 0
          (handleSendMessage_text "m1" 2 (Some "hello")
             (handleSendMessage_enter "u1" 1 text_ready))) = IDLE
  /\ avatarState text_spoken = SPEAKING
  /\ spec_table_allows IDLE SPEAKING = false.
Proof. vm_compute. repeat split; reflexivity. Qed.

(** ** The conversation *)

Lemma step_messages (b64 : list Z -> string) (e : Event) (st : AppState) :
  exists suffix,
    messages (step b64 e st) = messages st ++ suffix
    /\ (List.length suffix <= 1)%nat.
Proof.
  step_cases e;
    solve [ exists []; split; [symmetry; apply app_nil_r | simpl; lia]
          | eexists [_]; split; [reflexivity | simpl; lia] ].
Qed.

Lemma run_messages (b64 : list Z -> string) (es : list Event) :
  forall st, exists suffix, messages (run b64 es st) = messages st ++ suffix.
Proof.
  induction es as [| e es IH]; intros st.
  - exists []. symmetry. apply app_nil_r.
  - change (run b64 (e :: es) st) with (run b64 es (step b64 e st)).
    destruct (IH (step b64 e st)) as (s2 & H2).
    destruct (step_messages b64 e st) as (s1 & H1 & _).
    exists (s1 ++ s2). rewrite H2, H1. symmetry. apply app_assoc.
Qed.

(** C10: the conversation starts as the welcome message alone (id
    'welcome-init', role MODEL); every handler leaves the list as it is or
    appends one message at its end; so after any sequence of events the list
    is the list before it followed by new messages, and the welcome message
    is still its first element. *)
Theorem C10_messages_append_only (b64 : list Z -> string) (apiKey : bool) (date : Z)
    (e : Event) (es : list Event) (st : AppState) :
  messages (initial apiKey date) = [welcome date]
  /\ id (welcome date) = "welcome-init"%string
  /\ role (welcome date) = MODEL
  /\ (exists suffix,
        messages (step b64 e st) = messages st ++ suffix
        /\ (List.length suffix <= 1)%nat)
  /\ (exists suffix, messages (run b64 es st) = messages st ++ suffix)
  /\ (exists rest, messages (run b64 es (initial apiKey date)) = welcome date :: rest).
Proof.
  split; [reflexivity | ]. split; [reflexivity | ]. split; [reflexivity | ].
  split; [apply step_messages | ].
  split; [apply run_messages | ].
  destruct (run_messages b64 es (initial apiKey date)) as (suffix & H).
  exists suffix. rewrite H. reflexivity.
Qed.


(** ** Two walks through the component *)

(** Live voice: IDLE, then LISTENING on start, SPEAKING when the first
    payload is scheduled, LISTENING again when its segment ends with nothing
    else queued. *)
Example live_walk :
  avatarState (initial true 0) = IDLE
  /\ avatarState live_open = LISTENING
  /\ avatarState
       (playAudio_scheduled LIVE_VOICE 0 1 (live_onmessage (Some "UklGRg==") false 0 live_open))
     = SPEAKING
  /\ avatarState
       (source_onended 0 1
          (playAudio_scheduled LIVE_VOICE 0 1
             (live_onmessage (Some "UklGRg==") false 0 live_open)))
     = LISTENING.
Proof. vm_compute. repeat split; reflexivity. Qed.

(** Text chat: IDLE, THINKING on submit, IDLE when the spoken reply comes
    back, SPEAKING when it is scheduled, IDLE when it ends; the conversation
    has grown by the question and the answer. *)
Example text_walk :
  avatarState text_ready = IDLE
  /\ avatarState (handleSendMessage_enter "u1" 1 text_ready) = THINKING
  /\ avatarState text_spoken = SPEAKING
  /\ avatarState (source_onended 0 10 text_spoken) = IDLE
  /\ map role (messages text_spoken) = [MODEL; USER; MODEL]
  /\ map text (messages text_spoken) = [WELCOME_MSG; "hi"%string; "hello"%string].
Proof. vm_compute. repeat split; reflexivity. Qed.

(** * Further properties *)

(** ** PCM conversion: order, sign, overdrive, bytes *)

Lemma Qtrunc_nonneg (q : Q) : (0 <= q)%Q -> Pcm.Qtrunc q = Qfloor q.
Proof.
  destruct q as [n d]. unfold Qle, Pcm.Qtrunc, Qfloor. simpl.
  rewrite Z.mul_1_r. intros Hn.
  apply Z.quot_div_nonneg; lia.
Qed.

Lemma Qtrunc_opp (q : Q) : Pcm.Qtrunc (- q) = - Pcm.Qtrunc q.
Proof.
  destruct q as [n d]. unfold Pcm.Qtrunc, Qopp. simpl.
  apply Z.quot_opp_l. lia.
Qed.

Lemma Qtrunc_le (p q : Q) : (p <= q)%Q -> Pcm.Qtrunc p <= Pcm.Qtrunc q.
Proof.
  intros Hpq.
  destruct (Qlt_le_dec p 0) as [Hp | Hp]; destruct (Qlt_le_dec q 0) as [Hq | Hq].
  - assert (Hle : Pcm.Qtrunc (- q) <= Pcm.Qtrunc (- p)).
    { rewrite !Qtrunc_nonneg by lra. apply Qfloor_resp_le. lra. }
    rewrite !Qtrunc_opp in Hle. lia.
  - assert (H1 : 0 <= Pcm.Qtrunc (- p)).
    { rewrite Qtrunc_nonneg by lra.
      change 0 with (Qfloor 0). apply Qfloor_resp_le. lra. }
    assert (H2 : 0 <= Pcm.Qtrunc q).
    { rewrite Qtrunc_nonneg by lra.
      change 0 with (Qfloor 0). apply Qfloor_resp_le. lra. }
    rewrite Qtrunc_opp in H1. lia.
  - lra.
  - rewrite !Qtrunc_nonneg by lra. apply Qfloor_resp_le. exact Hpq.
Qed.

(** X1: on samples in [-1, 1) the conversion keeps the order: a louder
    sample never gets a smaller PCM value. *)
Theorem pcm_sample_monotone (s t : Q) :
  (-1 <= s)%Q -> (s <= t)%Q -> (t < 1)%Q ->
  Pcm.pcm_sample s <= Pcm.pcm_sample t.
Proof.
  intros Hs Hst Ht. unfold Pcm.pcm_sample.
  rewrite !PcmFacts.ToInt16_in_range by lra.
  apply Qtrunc_le. lra.
Qed.

Lemma pcm_sample_monotone_witness :
  Pcm.pcm_sample (-1 # 2) <= Pcm.pcm_sample (1 # 3).
Proof.
  apply (pcm_sample_monotone (-1 # 2) (1 # 3));
    unfold Qle, Qlt; simpl; lia.
Defined.

(** X2: strictly inside (-1, 1) the conversion is odd: negating the sample
    negates the PCM value. *)
Theorem pcm_sample_odd (s : Q) :
  (-1 < s)%Q -> (s < 1)%Q ->
  Pcm.pcm_sample (- s) = - Pcm.pcm_sample s.
Proof.
  intros Hlo Hhi. unfold Pcm.pcm_sample.
  rewrite !PcmFacts.ToInt16_in_range by lra.
  rewrite <- Qtrunc_opp.
  destruct s as [n d]. unfold Pcm.Qtrunc, Qopp, Qmult. simpl.
  f_equal. lia.
Qed.

Lemma pcm_sample_odd_witness :
  Pcm.pcm_sample (- (3 # 7)) = - Pcm.pcm_sample (3 # 7).
Proof.
  apply (pcm_sample_odd (3 # 7)); unfold Qlt; simpl; lia.
Defined.

(** X3: a sample at or above full scale is not clipped.  From 1 up to 2 the
    stored value is the scaled sample less 65536, a negative number; from
    -32769/32768 down to -2 it is the scaled sample plus 65536, a positive
    number. *)
Theorem pcm_sample_overdrive (s : Q) :
  ((1 <= s)%Q -> (s < 2)%Q ->
   Pcm.pcm_sample s = Pcm.Qtrunc (s * 32768)%Q - 65536 /\ Pcm.pcm_sample s < 0)
  /\ ((-2 < s)%Q -> (s <= - (32769 # 32768))%Q ->
      Pcm.pcm_sample s = Pcm.Qtrunc (s * 32768)%Q + 65536 /\ 0 < Pcm.pcm_sample s).
Proof.
  split.
  - intros Hlo Hhi.
    assert (Hu : 0 <= Pcm.Qtrunc (s * 32768)%Q < 65536)
      by (apply PcmFacts.Qtrunc_bounds;
          [ change (inject_Z 0) with 0%Q; lra
          | change (inject_Z 65536) with 65536%Q; lra | lia | lia ]).
    assert (Hl : Pcm.Qtrunc 32768 <= Pcm.Qtrunc (s * 32768)%Q)
      by (apply Qtrunc_le; lra).
    change (Pcm.Qtrunc 32768) with 32768%Z in Hl.
    unfold Pcm.pcm_sample, Pcm.ToInt16.
    rewrite Z.mod_small by lia.
    destruct (Z.leb_spec 32768 (Pcm.Qtrunc (s * 32768)%Q)); lia.
  - intros Hlo Hhi.
    assert (Hu : 0 <= Pcm.Qtrunc (- (s * 32768))%Q < 65536)
      by (apply PcmFacts.Qtrunc_bounds;
          [ change (inject_Z 0) with 0%Q; lra
          | change (inject_Z 65536) with 65536%Q; lra | lia | lia ]).
    assert (Hl : Pcm.Qtrunc 32769 <= Pcm.Qtrunc (- (s * 32768))%Q)
      by (apply Qtrunc_le; lra).
    change (Pcm.Qtrunc 32769) with 32769%Z in Hl.
    rewrite Qtrunc_opp in Hu, Hl.
    unfold Pcm.pcm_sample, Pcm.ToInt16.
    replace (Pcm.Qtrunc (s * 32768)%Q mod 65536)
      with (Pcm.Qtrunc (s * 32768)%Q + 65536)
      by (apply Z.mod_unique with (q := -1); lia).
    destruct (Z.leb_spec 32768 (Pcm.Qtrunc (s * 32768)%Q + 65536)); lia.
Qed.

Lemma pcm_sample_overdrive_witness :
  Pcm.pcm_sample (3 # 2) < 0 /\ 0 < Pcm.pcm_sample (- (3 # 2)).
Proof.
  split.
  - apply (pcm_sample_overdrive (3 # 2)); unfold Qle, Qlt; simpl; lia.
  - apply (pcm_sample_overdrive (- (3 # 2))); unfold Qle, Qlt; simpl; lia.
Defined.

Lemma int16_bytes_split (z : Z) :
  -32768 <= z <= 32767 ->
  exists lo hi,
    Pcm.int16_bytes z = [lo; hi]
    /\ 0 <= lo < 256 /\ 0 <= hi < 256
    /\ z = (if (hi <? 128)%Z then lo + 256 * hi else lo + 256 * hi - 65536).
Proof.
  intros Hz. unfold Pcm.int16_bytes.
  set (u := z mod 65536).
  assert (Hu : 0 <= u < 65536) by (apply Z.mod_pos_bound; lia).
  exists (u mod 256), (u / 256).
  pose proof (Z.div_mod u 256 ltac:(lia)) as Hdm.
  pose proof (Z.mod_pos_bound u 256 ltac:(lia)) as Hm.
  assert (Hq : 0 <= u / 256 < 256)
    by (split; [apply Z.div_pos; lia | apply Z.div_lt_upper_bound; lia]).
  repeat split; try lia.
  destruct (Z_lt_le_dec z 0) as [Hneg | Hpos].
  - assert (Eu : u = z + 65536)
      by (unfold u; symmetry; apply Z.mod_unique with (q := -1); lia).
    destruct (Z.ltb_spec (u / 256) 128); lia.
  - assert (Eu : u = z) by (unfold u; apply Z.mod_small; lia).
    destruct (Z.ltb_spec (u / 256) 128); lia.
Qed.

(** X4: the buffer handed to the base64 encoder holds two bytes per sample,
    each between 0 and 255, low byte first; read back as a little-endian
    two's-complement number, the pair at position [i] is the PCM value of
    sample [i]. *)
Theorem pcm_buffer_little_endian (inputData : list Q) :
  let buf := Pcm.pcm_buffer (Pcm.pcm_encode inputData) in
  List.length buf = (2 * List.length inputData)%nat
  /\ Forall (fun b => 0 <= b < 256) buf
  /\ (forall i s,
        nth_error inputData i = Some s ->
        exists lo hi,
          nth_error buf (2 * i) = Some lo
          /\ nth_error buf (2 * i + 1) = Some hi
          /\ Pcm.pcm_sample s
             = (if (hi <? 128)%Z then lo + 256 * hi else lo + 256 * hi - 65536)).
Proof.
  intros buf. unfold buf. clear buf.
  split; [rewrite PcmFacts.pcm_buffer_length, PcmFacts.pcm_encode_length; reflexivity | ].
  split.
  - induction inputData as [| s l IH]; [constructor | ].
    destruct (int16_bytes_split (Pcm.pcm_sample s) (PcmFacts.ToInt16_range _))
      as (lo & hi & E & Hlo & Hhi & _).
    change (Pcm.pcm_buffer (Pcm.pcm_encode (s :: l)))
      with (Pcm.int16_bytes (Pcm.pcm_sample s) ++ Pcm.pcm_buffer (Pcm.pcm_encode l)).
    rewrite E. simpl. constructor; [exact Hlo | ]. constructor; [exact Hhi | exact IH].
  - induction inputData as [| s l IH]; intros i x Hnth.
    + destruct i; discriminate.
    + destruct (int16_bytes_split (Pcm.pcm_sample s) (PcmFacts.ToInt16_range _))
        as (lo & hi & E & _ & _ & Hz).
      change (Pcm.pcm_buffer (Pcm.pcm_encode (s :: l)))
        with (Pcm.int16_bytes (Pcm.pcm_sample s) ++ Pcm.pcm_buffer (Pcm.pcm_encode l)).
      rewrite E.
      destruct i as [| i].
      * simpl in Hnth. injection Hnth as <-.
        exists lo, hi. split; [reflexivity | ]. split; [reflexivity | exact Hz].
      * simpl in Hnth. destruct (IH i x Hnth) as (lo' & hi' & H1 & H2 & H3).
        exists lo', hi'.
        replace (2 * S i)%nat with (S (S (2 * i))) by lia.
        replace (S (S (2 * i)) + 1)%nat with (S (S (2 * i + 1))) by lia.
        split; [exact H1 | ]. split; [exact H2 | exact H3].
Qed.

Lemma pcm_buffer_little_endian_witness :
  exists lo hi,
    nth_error (Pcm.pcm_buffer (Pcm.pcm_encode [(1 # 2)%Q; (-1 # 4)%Q])) (2 * 1) = Some lo
    /\ nth_error (Pcm.pcm_buffer (Pcm.pcm_encode [(1 # 2)%Q; (-1 # 4)%Q])) (2 * 1 + 1)
       = Some hi
    /\ Pcm.pcm_sample (-1 # 4)
       = (if (hi <? 128)%Z then lo + 256 * hi else lo + 256 * hi - 65536).
Proof.
  destruct (pcm_buffer_little_endian [(1 # 2)%Q; (-1 # 4)%Q]) as (_ & _ & H).
  apply (H 1%nat (-1 # 4)%Q). reflexivity.
Defined.

(** ** Playback: overlap *)

Lemma scheduled_sources_no_overlap (m : AppMode) (calls : list (Q * Q)) :
  forall cursor,
    no_overlap_from cursor (scheduled_sources m cursor calls)
    /\ end_of_last cursor (scheduled_sources m cursor calls)
       = fold_left (fun c call => (Qmax c (fst call) + snd call)%Q) calls cursor.
Proof.
  induction calls as [| c rest IH]; intros cursor; simpl; [split; [exact I | reflexivity] | ].
  destruct (IH (Qmax cursor (fst c) + snd c)%Q) as [Hno Hend].
  split; [split; [apply Qmax_ge_left | exact Hno] | exact Hend].
Qed.

Lemma schedule_all_cursor (m : AppMode) (calls : list (Q * Q)) :
  forall st,
    nextStartTimeRef (schedule_all m calls st)
    = fold_left (fun c call => (Qmax c (fst call) + snd call)%Q) calls (nextStartTimeRef st).
Proof.
  induction calls as [| c rest IH]; intros st; [reflexivity | ].
  change (schedule_all m (c :: rest) st)
    with (schedule_all m rest (playAudio_scheduled m (fst c) (snd c) st)).
  rewrite IH, playAudio_scheduled_cursor. reflexivity.
Qed.

(** X5: however late or early the calls of the scheduling part of
    [playAudio] come, the buffers they hand to the device never overlap one
    another: the first starts at or after the cursor it found, each later
    one at or after the end of the one before it, and the cursor is left at
    the end of the last. *)
Theorem schedule_all_no_overlap (m : AppMode) (calls : list (Q * Q)) (st : AppState) :
  let new := scheduled_sources m (nextStartTimeRef st) calls in
  sources (schedule_all m calls st) = sources st ++ new
  /\ no_overlap_from (nextStartTimeRef st) new
  /\ nextStartTimeRef (schedule_all m calls st) = end_of_last (nextStartTimeRef st) new.
Proof.
  intros new.
  destruct (scheduled_sources_no_overlap m calls (nextStartTimeRef st)) as [Hno Hend].
  split; [apply schedule_all_sources | ].
  split; [exact Hno | ].
  unfold new. rewrite Hend. apply schedule_all_cursor.
Qed.

(** X6: a spoken text reply is not queued behind earlier audio.  When the
    output context exists, the handler moves the cursor to the clock before
    it enters [playAudio], so the reply's buffer, scheduled at a clock
    reading that is not earlier, starts at that reading; the sources
    scheduled before are left as they are, playing or not. *)
Theorem spoken_reply_starts_at_once (audioData : option string) (now now' d : Q)
    (st : AppState) :
  audioContextRef st = true -> truthy audioData = true -> (now <= now')%Q ->
  let st2 := playAudio_scheduled TEXT_CHAT now' d (handleSendMessage_tts audioData now st) in
  (exists src,
      sources st2 = sources st ++ [src]
      /\ (src_start src == now')%Q /\ src_duration src = d /\ src_stopped src = None)
  /\ nextStartTimeRef st2 == (now' + d)%Q
  /\ avatarState st2 = SPEAKING.
Proof.
  intros Hctx Haudio Hle st2.
  assert (E : handleSendMessage_tts audioData now st
              = set_nextStartTimeRef now (setAvatarState IDLE st)).
  { unfold handleSendMessage_tts, playAudio_enter. rewrite Haudio. cbn.
    rewrite Hctx. cbn. rewrite Hctx. reflexivity. }
  unfold st2. rewrite E.
  assert (Hmax : (Qmax now now' == now')%Q) by (apply Q.max_r; exact Hle).
  split.
  - eexists. split; [reflexivity | ]. cbn. split; [exact Hmax | split; reflexivity].
  - split; [ | reflexivity].
    rewrite playAudio_scheduled_cursor. cbn. rewrite Hmax. reflexivity.
Qed.

Lemma spoken_reply_starts_at_once_witness :
  exists src,
    sources
      (playAudio_scheduled TEXT_CHAT 5 2 (handleSendMessage_tts (Some "UklGRg==") 5 text_spoken))
    = sources text_spoken ++ [src]
    /\ (src_start src == 5)%Q /\ src_duration src = 2%Q /\ src_stopped src = None.
Proof.
  destruct (spoken_reply_starts_at_once (Some "UklGRg==") 5 5 2 text_spoken
              eq_refl eq_refl) as (H & _).
  - unfold Qle; simpl; lia.
  - exact H.
Defined.

(** ** Text chat: the guard, the request, the ways a send ends *)

Lemma all_ws_ascii_trim (s : string) : all_ws_ascii s = true -> trim_is_empty s = true.
Proof.
  induction s as [| a s IH]; simpl; [reflexivity | ].
  intros H. apply andb_prop in H. destruct H as [Ha Hs].
  rewrite Ha. apply IH. exact Hs.
Qed.

Lemma ws_ascii_not_visible (a : ascii) : ws_ascii a = true -> visible_ascii a = false.
Proof. intros H. unfold visible_ascii. rewrite H. apply andb_false_r. Qed.

Lemma high_not_visible (a : ascii) : (128 <= N_of_ascii a)%N -> visible_ascii a = false.
Proof.
  intros H. unfold visible_ascii.
  destruct (N.ltb_spec (N_of_ascii a) 128); [lia | reflexivity].
Qed.

Lemma ws_two_high (a b : ascii) :
  ws_two a b = true -> (128 <= N_of_ascii a)%N /\ (128 <= N_of_ascii b)%N.
Proof.
  unfold ws_two. rewrite Bool.andb_true_iff, !N.eqb_eq. lia.
Qed.

Lemma ws_three_high (a b c : ascii) :
  ws_three a b c = true ->
  (128 <= N_of_ascii a)%N /\ (128 <= N_of_ascii b)%N /\ (128 <= N_of_ascii c)%N.
Proof.
  unfold ws_three.
  repeat rewrite ?Bool.orb_true_iff, ?Bool.andb_true_iff, ?N.eqb_eq, ?N.leb_le.
  lia.
Qed.

Lemma has_visible_trim (n : nat) :
  forall s, (String.length s <= n)%nat -> has_visible s = true -> trim_is_empty s = false.
Proof.
  induction n as [| n IH]; intros s Hlen Hv.
  - destruct s; [discriminate Hv | simpl in Hlen; lia].
  - destruct s as [| a s1]; [discriminate Hv | ].
    simpl in Hlen, Hv. simpl trim_is_empty.
    destruct (ws_ascii a) eqn:Ea.
    + rewrite (ws_ascii_not_visible a Ea) in Hv. apply IH; [lia | exact Hv].
    + destruct s1 as [| b s2]; [reflexivity | ].
      simpl in Hlen, Hv.
      destruct (ws_two a b) eqn:E2.
      * destruct (ws_two_high a b E2) as [Ha Hb].
        rewrite (high_not_visible a Ha), (high_not_visible b Hb) in Hv.
        apply IH; [lia | exact Hv].
      * destruct s2 as [| c s3]; [reflexivity | ].
        simpl in Hlen, Hv.
        destruct (ws_three a b c) eqn:E3; [ | reflexivity].
        destruct (ws_three_high a b c E3) as (Ha & Hb & Hc).
        rewrite (high_not_visible a Ha), (high_not_visible b Hb),
          (high_not_visible c Hc) in Hv.
        apply IH; [lia | exact Hv].
Qed.

(** X7: [handleSendMessage] does nothing at all when the API client is
    missing or the input holds only spaces, tabs and line breaks; when the
    client is there and the input holds at least one ASCII character that is
    not white space, it appends the input, unchanged, as one USER message,
    empties the input, raises [isLoading] and shows THINKING. *)
Theorem handleSendMessage_guard (uuid : string) (date : Z) (st : AppState) :
  (aiRef st = false -> handleSendMessage_enter uuid date st = st)
  /\ (all_ws_ascii (input st) = true -> handleSendMessage_enter uuid date st = st)
  /\ (aiRef st = true -> has_visible (input st) = true ->
      let st' := handleSendMessage_enter uuid date st in
      messages st' = messages st ++ [mkMessage uuid USER (input st) date]
      /\ input st' = EmptyString
      /\ isLoading st' = true
      /\ avatarState st' = THINKING).
Proof.
  unfold handleSendMessage_enter.
  split; [ | split].
  - intros H. rewrite H. rewrite orb_true_r. reflexivity.
  - intros H. rewrite (all_ws_ascii_trim _ H). reflexivity.
  - intros Hai Hv.
    rewrite (has_visible_trim (String.length (input st)) (input st) (Nat.le_refl _) Hv).
    rewrite Hai. cbn. repeat split; reflexivity.
Qed.

Lemma handleSendMessage_guard_witness :
  handleSendMessage_enter "u1" 1 (setInput "   " text_ready) = setInput "   " text_ready
  /\ handleSendMessage_enter "u1" 1 (initial false 0) = initial false 0
  /\ messages (handleSendMessage_enter "u1" 1 text_ready)
     = messages text_ready ++ [mkMessage "u1" USER "hi" 1].
Proof.
  split; [ | split].
  - apply (handleSendMessage_guard "u1" 1 (setInput "   " text_ready)). reflexivity.
  - apply (handleSendMessage_guard "u1" 1 (initial false 0)). reflexivity.
  - apply (handleSendMessage_guard "u1" 1 text_ready); reflexivity.
Defined.

(** X8: however a send ends, [isLoading] is false afterwards.  If the text
    request throws, the conversation gains the apology; if the speech
    request throws, it has gained the reply and gains the apology after it;
    if the speech reply carries no audio, or its audio cannot be decoded,
    the reply stays and the avatar rests at IDLE with nothing scheduled; if
    the audio is decoded, one buffer is scheduled and the avatar shows
    SPEAKING.  An empty or missing reply text is replaced by the fallback
    sentence. *)
Theorem handleSendMessage_endings (uuid1 uuid2 : string) (date1 date2 : Z)
    (responseText audioData : option string) (m : AppMode) (now now' d : Q)
    (st : AppState) :
  let replied := handleSendMessage_text uuid1 date1 responseText st in
  let reply := mkMessage uuid1 MODEL (or_else responseText TEXT_FALLBACK) date1 in
  let apology := mkMessage uuid2 MODEL TEXT_FAILURE date2 in
  let spoken := handleSendMessage_tts audioData now replied in
  (let fin := handleSendMessage_catch uuid2 date2 st in
   messages fin = messages st ++ [apology]
   /\ isLoading fin = false /\ avatarState fin = IDLE)
  /\ (let fin := handleSendMessage_catch uuid2 date2 replied in
      messages fin = messages st ++ [reply; apology]
      /\ isLoading fin = false /\ avatarState fin = IDLE)
  /\ (truthy audioData = false ->
      messages spoken = messages st ++ [reply]
      /\ isLoading spoken = false /\ avatarState spoken = IDLE
      /\ sources spoken = sources st
      /\ nextStartTimeRef spoken = nextStartTimeRef st)
  /\ (truthy audioData = true ->
      let fin := handleSendMessage_finally (playAudio_failed spoken) in
      messages fin = messages st ++ [reply]
      /\ isLoading fin = false /\ avatarState fin = IDLE
      /\ sources fin = sources st)
  /\ (truthy audioData = true ->
      let fin := handleSendMessage_finally (playAudio_scheduled m now' d spoken) in
      messages fin = messages st ++ [reply]
      /\ isLoading fin = false /\ avatarState fin = SPEAKING
      /\ List.length (sources fin) = S (List.length (sources st)))
  /\ (truthy responseText = false -> text reply = TEXT_FALLBACK)
  /\ (forall t, truthy (Some t) = true -> responseText = Some t -> text reply = t).
Proof.
  intros replied reply apology spoken.
  split; [repeat split; try reflexivity | ].
  split.
  { cbn. rewrite <- app_assoc. repeat split; reflexivity. }
  split.
  { intros Ha. unfold spoken, handleSendMessage_tts. rewrite Ha.
    repeat split; reflexivity. }
  split.
  { intros Ha. unfold spoken, handleSendMessage_tts, playAudio_enter. rewrite Ha.
    destruct st as [md ms inp ld av co er ai [|] lsr asr nst p k srcs lv];
      repeat split; reflexivity. }
  split.
  { intros Ha. unfold spoken, handleSendMessage_tts, playAudio_enter. rewrite Ha.
    destruct st as [md ms inp ld av co er ai [|] lsr asr nst p k srcs lv]; cbn;
      rewrite length_app, Nat.add_comm; repeat split; reflexivity. }
  split.
  { intros Hr. cbn. destruct responseText as [[| a t] |]; [reflexivity | discriminate Hr | reflexivity]. }
  intros t Ht Hr. subst responseText. cbn. destruct t; [discriminate Ht | reflexivity].
Qed.

Lemma handleSendMessage_endings_witness :
  messages
    (handleSendMessage_tts None 0
       (handleSendMessage_text "m1" 2 (Some "") (handleSendMessage_enter "u1" 1 text_ready)))
  = messages (handleSendMessage_enter "u1" 1 text_ready)
      ++ [mkMessage "m1" MODEL TEXT_FALLBACK 2]
  /\ avatarState
       (handleSendMessage_finally
          (playAudio_scheduled TEXT_CHAT 0 1
             (handleSendMessage_tts (Some "UklGRg==") 0
                (handleSendMessage_text "m1" 2 (Some "")
                   (handleSendMessage_enter "u1" 1 text_ready)))))
     = SPEAKING.
Proof.
  destruct (handleSendMessage_endings "m1" "m2" 2 3 (Some EmptyString) None TEXT_CHAT
              0 0 1 (handleSendMessage_enter "u1" 1 text_ready))
    as (_ & _ & Hsilent & _).
  destruct (handleSendMessage_endings "m1" "m2" 2 3 (Some EmptyString)
              (Some "UklGRg=="%string) TEXT_CHAT 0 0 1
              (handleSendMessage_enter "u1" 1 text_ready))
    as (_ & _ & _ & _ & Hspoken & _).
  split.
  - apply Hsilent. reflexivity.
  - apply Hspoken. reflexivity.
Defined.

(** X9: the history sent to the text model is the system instruction, as a
    user turn, followed by exactly the conversation that is on screen once
    the question has been appended: every earlier message in order, USER
    messages as 'user' turns and MODEL messages as 'model' turns, and the
    question once, as the last 'user' turn. *)
Theorem chat_contents_is_conversation (systemInstruction uuid : string) (date : Z)
    (st : AppState) :
  aiRef st = true -> trim_is_empty (input st) = false ->
  chat_contents systemInstruction st
  = mkContent "user" systemInstruction
      :: map to_content (messages (handleSendMessage_enter uuid date st)).
Proof.
  intros Hai Htrim. unfold chat_contents, handleSendMessage_enter.
  rewrite Htrim, Hai. cbn. rewrite map_app. reflexivity.
Qed.

Lemma chat_contents_is_conversation_witness :
  chat_contents "be brief" text_ready
  = [mkContent "user" "be brief"; mkContent "model" WELCOME_MSG; mkContent "user" "hi"].
Proof.
  rewrite (chat_contents_is_conversation "be brief" "u1" 1 text_ready eq_refl eq_refl).
  reflexivity.
Defined.

Lemma step_input (b64 : list Z -> string) (e : Event) (st : AppState) :
  match e with TypeInput _ => false | _ => true end = true ->
  input (step b64 e st) = input st \/ input (step b64 e st) = EmptyString.
Proof.
  intros He. step_cases e; try discriminate He; auto.
Qed.


Lemma run_input_empty (b64 : list Z -> string) (es : list Event) :
  forall st,
    no_typing es = true -> input st = EmptyString -> input (run b64 es st) = EmptyString.
Proof.
  induction es as [| e es IH]; intros st Hes Hst; [exact Hst | ].
  simpl in Hes. apply andb_prop in Hes. destruct Hes as [He Hes].
  change (run b64 (e :: es) st) with (run b64 es (step b64 e st)).
  apply IH; [exact Hes | ].
  destruct (step_input b64 e st He) as [H | H]; congruence.
Qed.

(** X10: when the send button is enabled and the API client exists, a send
    appends the typed text as a USER message and disables the text field;
    from then on, whatever happens short of the user typing again, the send
    button stays disabled and a further call of [handleSendMessage] (the
    Enter key reaches it without the button) changes nothing. *)
Theorem send_blocks_resubmission (b64 : list Z -> string) (uuid : string) (date : Z)
    (es : list Event) (st : AppState) :
  aiRef st = true ->
  ChatInterface.sendDisabled (input st) (isLoading st) = false ->
  no_typing es = true ->
  let st' := handleSendMessage_enter uuid date st in
  messages st' = messages st ++ [mkMessage uuid USER (input st) date]
  /\ ChatInterface.inputDisabled (isLoading st') = true
  /\ ChatInterface.sendDisabled (input (run b64 es st')) (isLoading (run b64 es st'))
     = true
  /\ (forall uuid' date',
        handleSendMessage_enter uuid' date' (run b64 es st') = run b64 es st').
Proof.
  intros Hai Hbtn Hes st'.
  unfold ChatInterface.sendDisabled in Hbtn. apply orb_false_elim in Hbtn.
  destruct Hbtn as [Htrim _].
  assert (Hst' : st' = setAvatarState THINKING
                         (setIsLoading true
                            (setInput EmptyString
                               (setMessages
                                  (fun prev => prev ++ [mkMessage uuid USER (input st) date])
                                  st)))).
  { unfold st', handleSendMessage_enter. rewrite Htrim, Hai. reflexivity. }
  assert (Hin : input (run b64 es st') = EmptyString)
    by (apply run_input_empty; [exact Hes | rewrite Hst'; reflexivity]).
  split; [rewrite Hst'; reflexivity | ].
  split; [rewrite Hst'; reflexivity | ].
  split.
  - unfold ChatInterface.sendDisabled. rewrite Hin. reflexivity.
  - intros uuid' date'. unfold handleSendMessage_enter. rewrite Hin. reflexivity.
Qed.

Lemma send_blocks_resubmission_witness :
  ChatInterface.sendDisabled
    (input
       (run (fun _ => EmptyString)
          [SendText "m1" 2 (Some "hello"); SendTts (Some "UklGRg==") 0;
           AudioScheduled TEXT_CHAT 0 10; SendFinally]
          (handleSendMessage_enter "u1" 1 text_ready)))
    (isLoading
       (run (fun _ => EmptyString)
          [SendText "m1" 2 (Some "hello"); SendTts (Some "UklGRg==") 0;
           AudioScheduled TEXT_CHAT 0 10; SendFinally]
          (handleSendMessage_enter "u1" 1 text_ready)))
  = true.
Proof.
  destruct (send_blocks_resubmission (fun _ => EmptyString) "u1" 1
              [SendText "m1" 2 (Some "hello"); SendTts (Some "UklGRg==") 0;
               AudioScheduled TEXT_CHAT 0 10; SendFinally]
              text_ready eq_refl eq_refl eq_refl) as (_ & _ & Hbtn & _).
  exact Hbtn.
Defined.

(** ** Live voice: refs and resources *)

Lemma step_refs_valid (b64 : list Z -> string) (e : Event) (st : AppState) :
  refs_valid st -> refs_valid (step b64 e st).
Proof.
  intros (H1 & H2 & H3 & H4).
  unfold refs_valid.
  step_cases e;
    rewrite ?update_at_length, ?length_app; cbn [List.length];
    repeat split; intros x Hx; try discriminate Hx;
    try (injection Hx as <-); try lia;
    try (specialize (H1 _ Hx); lia); try (specialize (H2 _ Hx); lia);
    try (specialize (H3 _ Hx); lia); try (specialize (H4 _ Hx); lia);
    try congruence.
Qed.

Lemma run_refs_valid (b64 : list Z -> string) (es : list Event) :
  forall st, refs_valid st -> refs_valid (run b64 es st).
Proof.
  induction es as [| e es IH]; intros st H; [exact H | ].
  change (run b64 (e :: es) st) with (run b64 es (step b64 e st)).
  apply IH. apply step_refs_valid. exact H.
Qed.

Lemma nth_error_in_range {A} (l : list A) (k : nat) :
  (k < List.length l)%nat -> exists x, nth_error l k = Some x.
Proof.
  intros H. destruct (nth_error l k) as [x |] eqn:E; [exists x; reflexivity | ].
  apply nth_error_None in E. lia.
Qed.

(** X11: in every state the component can reach, each ref that holds an
    object holds one that exists, so [stopLiveSession] always finds the
    stream and the processor it is to release: afterwards the stream that
    [streamRef] held has its tracks stopped and the processor that
    [inputProcessorRef] held is disconnected. *)
Theorem refs_never_dangle (b64 : list Z -> string) (es : list Event) (apiKey : bool)
    (date : Z) :
  let st := run b64 es (initial apiKey date) in
  refs_valid st
  /\ (forall k,
        streamRef st = Some k ->
        exists io, nth_error (lives (stopLiveSession st)) k = Some io
                   /\ tracksLive io = false)
  /\ (forall k,
        inputProcessorRef st = Some k ->
        exists io, nth_error (lives (stopLiveSession st)) k = Some io
                   /\ processorToOut io = false).
Proof.
  intros st.
  assert (Hv : refs_valid st).
  { apply run_refs_valid. repeat split; intros x Hx; discriminate Hx. }
  split; [exact Hv | ].
  destruct Hv as (H1 & H2 & _ & _).
  split.
  - intros k Hk. specialize (H1 k Hk).
    rewrite stopLiveSession_lives, Hk. cbn.
    destruct (nth_error_in_range (lives st) k H1) as (io & Hio).
    destruct (inputProcessorRef st) as [p |].
    + rewrite !nth_error_update_at, Nat.eqb_refl, Hio.
      destruct (Nat.eqb k p); eexists; split; reflexivity.
    + rewrite nth_error_update_at, Nat.eqb_refl, Hio.
      eexists; split; reflexivity.
  - intros k Hk. specialize (H2 k Hk).
    rewrite stopLiveSession_lives, Hk. cbn.
    destruct (nth_error_in_range (lives st) k H2) as (io & Hio).
    rewrite nth_error_update_at, Nat.eqb_refl.
    destruct (streamRef st) as [p |].
    + rewrite nth_error_update_at, Hio.
      destruct (Nat.eqb k p); eexists; split; reflexivity.
    + rewrite Hio. eexists; split; reflexivity.
Qed.

Lemma refs_never_dangle_witness :
  exists io,
    nth_error
      (lives
         (stopLiveSession
            (run (fun _ => EmptyString)
               [LiveEnter; LiveResume GraphThrew; LiveEnter; LiveResume ConnectReturned]
               (initial true 0)))) 1
    = Some io
    /\ tracksLive io = false.
Proof.
  destruct (refs_never_dangle (fun _ => EmptyString)
              [LiveEnter; LiveResume GraphThrew; LiveEnter; LiveResume ConnectReturned]
              true 0) as (_ & Hstream & _).
  apply (Hstream 1%nat). reflexivity.
Defined.

Lemma step_keeps_client (b64 : list Z -> string) (e : Event) (st : AppState) :
  aiRef (step b64 e st) = aiRef st.
Proof. step_cases e; reflexivity. Qed.

Lemma step_keeps_session (b64 : list Z -> string) (e : Event) (st : AppState) :
  liveSessionRef st <> None -> liveSessionRef (step b64 e st) <> None.
Proof. intros H. step_cases e; try assumption; discriminate. Qed.

(** X12: no handler ever sets these three refs back to null.  [aiRef] keeps
    the value it had; [audioContextRef], once it holds a context, holds one
    ever after; [liveSessionRef], once it holds a connection, holds one ever
    after (a later start may store another in its place). *)
Theorem refs_never_cleared (b64 : list Z -> string) (es : list Event) (st : AppState) :
  aiRef (run b64 es st) = aiRef st
  /\ (audioContextRef st = true -> audioContextRef (run b64 es st) = true)
  /\ (liveSessionRef st <> None -> liveSessionRef (run b64 es st) <> None).
Proof.
  revert st. induction es as [| e es IH]; intros st.
  - repeat split; auto.
  - change (run b64 (e :: es) st) with (run b64 es (step b64 e st)).
    destruct (IH (step b64 e st)) as (Hai & Hctx & Hlive).
    split; [rewrite Hai; apply step_keeps_client | ].
    split.
    + intros H. apply Hctx. apply step_keeps_context. exact H.
    + intros H. apply Hlive. apply step_keeps_session. exact H.
Qed.

Lemma refs_never_cleared_witness :
  audioContextRef
    (run (fun _ => EmptyString) [LiveStop; LiveClose; ClickHome; LiveError] live_open) = true
  /\ liveSessionRef
       (run (fun _ => EmptyString) [LiveStop; LiveClose; ClickHome; LiveError] live_open)
     <> None.
Proof.
  destruct (refs_never_cleared (fun _ => EmptyString)
              [LiveStop; LiveClose; ClickHome; LiveError] live_open) as (_ & Hctx & Hlive).
  split; [apply Hctx; reflexivity | apply Hlive; discriminate].
Defined.

(** X13: [startLiveSession] never releases the stream of an earlier run.
    When a run that got its microphone stream (whether or not it went on to
    connect) is followed by a run that gets one too, [streamRef] holds the
    later stream only, and [stopLiveSession] stops that one: the tracks of
    the earlier stream stay live. *)
Theorem second_start_orphans_stream (r1 r2 : Acquired) (st : AppState) :
  r1 <> MicDenied -> r2 <> MicDenied ->
  let k := List.length (lives st) in
  let st2 :=
    startLiveSession_resume r2
      (startLiveSession_enter (startLiveSession_resume r1 (startLiveSession_enter st))) in
  streamRef st2 = Some (S k)
  /\ (exists io, nth_error (lives (stopLiveSession st2)) k = Some io
                 /\ tracksLive io = true)
  /\ (exists io, nth_error (lives (stopLiveSession st2)) (S k) = Some io
                 /\ tracksLive io = false).
Proof.
  intros Hr1 Hr2 k st2.
  assert (Hlen : forall s, lives (startLiveSession_enter s) = lives s).
  { intros s. unfold startLiveSession_enter.
    destruct (negb (aiRef s)); [reflexivity | ].
    cbn. destruct (audioContextRef s); reflexivity. }
  assert (Hl1 : lives (startLiveSession_resume r1 (startLiveSession_enter st))
                = lives st ++ [fresh_live]).
  { destruct r1; try contradiction; cbn; rewrite Hlen; reflexivity. }
  set (s1 := startLiveSession_enter
               (startLiveSession_resume r1 (startLiveSession_enter st))) in *.
  assert (Hs1 : lives s1 = lives st ++ [fresh_live]).
  { unfold s1. rewrite Hlen. exact Hl1. }
  assert (Hst2 : streamRef st2 = Some (S k)
                 /\ lives st2 = (lives st ++ [fresh_live]) ++ [fresh_live]
                 /\ (inputProcessorRef st2 = Some (S k)
                     \/ inputProcessorRef st2 = inputProcessorRef s1)).
  { unfold st2. destruct r2; try contradiction; cbn; rewrite Hs1, length_app;
      cbn; rewrite Nat.add_comm; cbn; fold k; repeat split; auto. }
  destruct Hst2 as (Hstream & Hlives & Hproc).
  split; [exact Hstream | ].
  rewrite stopLiveSession_lives, Hstream, Hlives. cbn zeta.
  assert (Hk : nth_error ((lives st ++ [fresh_live]) ++ [fresh_live]) k = Some fresh_live).
  { rewrite nth_error_app1 by (rewrite length_app; cbn; lia).
    rewrite nth_error_app2 by lia. unfold k. rewrite Nat.sub_diag. reflexivity. }
  assert (HSk : nth_error ((lives st ++ [fresh_live]) ++ [fresh_live]) (S k)
                = Some fresh_live).
  { rewrite nth_error_app2 by (rewrite length_app; cbn [List.length]; lia).
    replace (S k - List.length (lives st ++ [fresh_live]))%nat with 0%nat
      by (rewrite length_app; cbn [List.length]; lia).
    reflexivity. }
  assert (HkS : Nat.eqb k (S k) = false) by (apply Nat.eqb_neq; lia).
  split.
  - destruct (inputProcessorRef st2) as [p |].
    + rewrite !nth_error_update_at, HkS, Hk.
      destruct (Nat.eqb k p); eexists; split; reflexivity.
    + rewrite nth_error_update_at, HkS, Hk. eexists; split; reflexivity.
  - destruct (inputProcessorRef st2) as [p |].
    + rewrite !nth_error_update_at, Nat.eqb_refl, HSk.
      destruct (Nat.eqb (S k) p); eexists; split; reflexivity.
    + rewrite nth_error_update_at, Nat.eqb_refl, HSk. eexists; split; reflexivity.
Qed.

Lemma second_start_orphans_stream_witness :
  exists io,
    nth_error
      (lives
         (stopLiveSession
            (startLiveSession_resume ConnectReturned
               (startLiveSession_enter
                  (startLiveSession_resume ConnectThrew
                     (startLiveSession_enter (initial true 0)))))))
      (List.length (lives (initial true 0)))
    = Some io
    /\ tracksLive io = true.
Proof.
  destruct (second_start_orphans_stream ConnectThrew ConnectReturned (initial true 0))
    as (_ & Hold & _); [discriminate | discriminate | exact Hold].
Defined.

Lemma stopLiveSession_entry (k : nat) (io : LiveIO) (st : AppState) :
  nth_error (lives st) k = Some io ->
  exists io',
    nth_error (lives (stopLiveSession st)) k = Some io' /\ sent io' = sent io.
Proof.
  intros Hio. rewrite stopLiveSession_lives. cbn zeta.
  destruct (streamRef st) as [p |]; destruct (inputProcessorRef st) as [q |];
    rewrite ?nth_error_update_at, Hio;
    repeat match goal with
           | |- context [Nat.eqb ?a ?b] => destruct (Nat.eqb a b)
           end;
    eexists; split; reflexivity.
Qed.

(** X14: [stopLiveSession] does not cancel a connection that is still
    opening.  If [onopen] of a run arrives after [stopLiveSession], the
    handler installs the capture callback and reconnects the processor all
    the same, while the component shows itself disconnected and IDLE; the
    next frame the processor delivers is sent. *)
Theorem open_after_stop_starts_capture (b64 : list Z -> string) (k : nat) (io : LiveIO)
    (inputData : list Q) (st : AppState) :
  nth_error (lives st) k = Some io ->
  let st1 := live_onopen k (stopLiveSession st) in
  isConnected st1 = false
  /\ avatarState st1 = IDLE
  /\ streamRef st1 = None
  /\ inputProcessorRef st1 = None
  /\ (exists io1,
        nth_error (lives st1) k = Some io1
        /\ onaudioprocessSet io1 = true
        /\ micToProcessor io1 = true
        /\ processorToOut io1 = true)
  /\ (exists io2,
        nth_error (lives (processor_onaudioprocess b64 k inputData st1)) k = Some io2
        /\ sent io2 = sent io ++ [frame_media b64 inputData]).
Proof.
  intros Hio st1.
  assert (Hfields : isConnected st1 = false /\ avatarState st1 = IDLE
                    /\ streamRef st1 = None /\ inputProcessorRef st1 = None).
  { unfold st1.
    destruct st as [md ms inp ld av co er ai ctx lsr asr nst [p |] [q |] srcs lv];
      repeat split; reflexivity. }
  destruct Hfields as (H1 & H2 & H3 & H4).
  repeat (split; [assumption | ]).
  destruct (stopLiveSession_entry k io st Hio) as (io' & Hio' & Hsent).
  assert (Hk : nth_error (lives st1) k = Some (open_capture io')).
  { change (lives st1) with (update_at k open_capture (lives (stopLiveSession st))).
    rewrite nth_error_update_at, Nat.eqb_refl, Hio'. reflexivity. }
  split.
  - exists (open_capture io'). repeat split; [exact Hk | reflexivity ..].
  - exists (send_frame b64 inputData (open_capture io')). split.
    + change (lives (processor_onaudioprocess b64 k inputData st1))
        with (update_at k
                (fun x => if onaudioprocessSet x then send_frame b64 inputData x else x)
                (lives st1)).
      rewrite nth_error_update_at, Nat.eqb_refl, Hk. reflexivity.
    + cbn. rewrite Hsent. reflexivity.
Qed.

Lemma open_after_stop_starts_capture_witness :
  exists io1,
    nth_error (lives (live_onopen 0 (stopLiveSession live_started))) 0 = Some io1
    /\ onaudioprocessSet io1 = true
    /\ micToProcessor io1 = true
    /\ processorToOut io1 = true.
Proof.
  destruct (open_after_stop_starts_capture (fun _ => EmptyString) 0 fresh_live []
              live_started eq_refl) as (_ & _ & _ & _ & Hopen & _).
  exact Hopen.
Defined.

(** ** Avatar: what the face can show *)

Module AvatarFacts.
Import Avatar.
Local Open Scope Q_scope.

Section Range.

Variable sin : Q -> Q.
Hypothesis sin_range : forall t, -1 <= sin t <= 1.

Lemma animate_shown (state : AvatarState) (time : Q) (f : Face) :
  shown state (snd (animate sin state time f)).
Proof.
  destruct state; cbn.
  - split; reflexivity.
  - pose proof (sin_range (time + (1 # 10))) as H.
    split; [ | reflexivity].
    unfold Qdiv. change (/ 2) with (1 # 2). lra.
  - pose proof (sin_range (time * 2)) as H. split; [reflexivity | lra].
  - pose proof (sin_range (time + (2 # 10))) as H1.
    pose proof (sin_range ((time + (2 # 10)) * (15 # 10))) as H2.
    split; [ | lra].
    unfold Qdiv. change (/ 3) with (1 # 3). lra.
Qed.

Lemma frames_shown (state : AvatarState) (n : nat) :
  forall time f, shown state (snd (frames sin (S n) state time f)).
Proof.
  induction n as [| n IH]; intros time f.
  - cbn [frames]. pose proof (animate_shown state time f) as H.
    destruct (animate sin state time f) as [t f1]. exact H.
  - change (frames sin (S (S n)) state time f)
      with (let (t, f1) := animate sin state time f in frames sin (S n) state t f1).
    destruct (animate sin state time f) as [t f1]. apply IH.
Qed.

Lemma effect_shown (state : AvatarState) (n : nat) (f : Face) :
  shown state (effect sin state n f).
Proof. destruct state; [cbn; split; reflexivity | apply frames_shown ..]. Qed.

(** X15: the values that the effect on [state] writes.  Whatever the sine
    returns within its range, and however many frames have run since the
    effect started, the mouth opening it has set lies between 0.1 and 0.7,
    inside the 0 to 1 that the component declares for it: at most 0.25 in
    the listening state, exactly 0.1 in the thinking and idle states.  The
    eyebrow lift it has set is 15 in the listening state, between 0 and 10
    in the thinking state, between -2 and 6 in the speaking state, 0 in the
    idle state.  (Before the effect of a state has run, the face still holds
    what was there: 0 at mount, the previous state's values after a
    change.) *)
Theorem face_within_bounds (state : AvatarState) (n : nat) (f : Face) :
  shown state (effect sin state n f)
  /\ 1 # 10 <= mouthOpen (effect sin state n f) <= 7 # 10
  /\ 0 <= mouthOpen (effect sin state n f) <= 1.
Proof.
  pose proof (effect_shown state n f) as H.
  split; [exact H | ].
  destruct state; cbn [shown] in H; destruct H as [Hm Hb];
    try rewrite Hm; split; split; try lra;
    unfold Qle; simpl; lia.
Qed.

(** X16: drawn from the values that the effect on [state] has written, the
    tongue appears in the speaking state only, and in the idle and thinking
    states the mouth is a closed line.  (The render between a change of
    state and the run of its effect draws the values of the state
    before.) *)
Theorem tongue_only_when_speaking (state : AvatarState) (n : nat) (f : Face) :
  (tongueShown (effect sin state n f) = true -> state = SPEAKING)
  /\ (state = IDLE \/ state = THINKING ->
      mouthOutlined (effect sin state n f) = true
      /\ tongueShown (effect sin state n f) = false).
Proof.
  pose proof (effect_shown state n f) as H.
  unfold tongueShown, mouthOutlined.
  split.
  - intros Ht. destruct state; cbn [shown] in H; destruct H as [Hm _].
    + rewrite Hm in Ht. discriminate Ht.
    + assert (Hle : mouthOpen (effect sin LISTENING n f) <= 3 # 10) by lra.
      apply Qle_bool_iff in Hle. rewrite Hle in Ht. discriminate Ht.
    + rewrite Hm in Ht. discriminate Ht.
    + reflexivity.
  - intros [-> | ->]; cbn [shown] in H; destruct H as [Hm _]; rewrite Hm;
      split; reflexivity.
Qed.

End Range.

(** X17: while the avatar is thinking its eyebrows do not move.  The clock
    of the animation advances only while speaking or listening, so every
    frame of the thinking state computes the lift from time 0, the same
    value each time. *)
Theorem thinking_brows_static (sin : Q -> Q) (n : nat) (f : Face) :
  fst (frames sin n THINKING 0 f) = 0
  /\ eyebrowLift (effect sin THINKING n f) = sin 0 * 5 + 5
  /\ mouthOpen (effect sin THINKING n f) = 1 # 10.
Proof.
  assert (Htime : forall k g, fst (frames sin k THINKING 0 g) = 0).
  { induction k as [| k IH]; intros g; [reflexivity | apply IH]. }
  assert (Hface : forall k g,
             snd (frames sin (S k) THINKING 0 g)
             = mkFace (blink g) (1 # 10) (sin 0 * 5 + 5)).
  { induction k as [| k IH]; intros g; [reflexivity | ].
    change (frames sin (S (S k)) THINKING 0 g)
      with (frames sin (S k) THINKING 0 (snd (animate sin THINKING 0 g))).
    rewrite IH. reflexivity. }
  split; [apply Htime | ].
  unfold effect. rewrite Hface. split; reflexivity.
Qed.

Lemma face_within_bounds_witness :
  1 # 10 <= mouthOpen (effect (fun _ => 0) SPEAKING 3 rest) <= 7 # 10.
Proof.
  destruct (face_within_bounds (fun _ => 0)) with (state := SPEAKING) (n := 3%nat) (f := rest)
    as (_ & H & _).
  - intros t. split; unfold Qle; simpl; lia.
  - exact H.
Defined.

Lemma tongue_only_when_speaking_witness :
  mouthOutlined (effect (fun _ => 1) THINKING 2 rest) = true
  /\ tongueShown (effect (fun _ => 1) THINKING 2 rest) = false.
Proof.
  destruct (tongue_only_when_speaking (fun _ => 1)) with (state := THINKING) (n := 2%nat)
    (f := rest) as (_ & H).
  - intros t. split; unfold Qle; simpl; lia.
  - apply H. right. reflexivity.
Defined.

End AvatarFacts.

(** ** ChatInterface: the empty conversation *)

(** X18: the chat panel never shows its invitation to type.  It is rendered
    for an empty conversation only, and in every state the component can
    reach the conversation starts with the welcome message, whose bubble is
    on the model's side. *)
Theorem placeholder_never_shown (b64 : list Z -> string) (es : list Event)
    (apiKey : bool) (date : Z) :
  let ms := messages (run b64 es (initial apiKey date)) in
  ChatInterface.placeholderShown ms = false
  /\ option_map text (hd_error ms) = Some WELCOME_MSG
  /\ option_map ChatInterface.bubbleOnRight (hd_error ms) = Some false.
Proof.
  intros ms. unfold ms.
  destruct (run_messages b64 es (initial apiKey date)) as (suffix & H).
  rewrite H. repeat split; reflexivity.
Qed.

(** ** Live voice and the rest of the screen *)

(** X19: only the text chat writes the conversation.  Every other handler,
    and so everything that happens in a live voice session (its start, its
    messages, the audio it plays, its interruptions, its end), leaves the
    message list exactly as it was: what is said in live voice is never
    added to the chat. *)
Theorem live_voice_keeps_conversation (b64 : list Z -> string) (es : list Event)
    (st : AppState) :
  forallb (fun e => negb (writes_conversation e)) es = true ->
  messages (run b64 es st) = messages st.
Proof.
  revert st. induction es as [| e es IH]; intros st H; [reflexivity | ].
  simpl in H. apply andb_prop in H. destruct H as [He Hes].
  change (run b64 (e :: es) st) with (run b64 es (step b64 e st)).
  rewrite (IH _ Hes).
  step_cases e; try discriminate He; reflexivity.
Qed.

Lemma live_voice_keeps_conversation_witness :
  messages
    (run (fun _ => EmptyString)
       [ClickLiveVoice; LiveEnter; LiveResume ConnectReturned; LiveOpen 0;
        LiveFrame 0 [(1 # 2)%Q]; LiveMessage (Some "UklGRg==") false 0;
        AudioScheduled LIVE_VOICE 0 1; LiveMessage None true (1 # 2);
        SourceEnded 0 (1 # 2); LiveClose; ClickHome]
       (initial true 0))
  = messages (initial true 0).
Proof.
  apply (live_voice_keeps_conversation (fun _ => EmptyString)). reflexivity.
Defined.

Lemma stopLiveSession_sources (st : AppState) :
  sources (stopLiveSession st) = sources st
  /\ nextStartTimeRef (stopLiveSession st) = nextStartTimeRef st.
Proof.
  destruct st as [md ms inp ld av co er ai ctx lsr asr nst [p |] [q |] srcs lv];
    split; reflexivity.
Qed.

(** X20: leaving a live session does not silence it.  The home button stops
    the session and shows the landing page, but the buffers handed to the
    device are left as they are, playing or waiting; and when a buffer that
    the live session scheduled ends with nothing queued behind it, its
    callback sets the avatar to LISTENING, on the landing page, with no
    session connected. *)
Theorem home_during_playback (b64 : list Z -> string) (i : nat) (src : BufferSource)
    (now : Q) (st : AppState) :
  nth_error (sources st) i = Some src ->
  src_mode src = LIVE_VOICE ->
  (nextStartTimeRef st - (1 # 10) <= now)%Q ->
  let home := step b64 ClickHome st in
  sources home = sources st
  /\ mode home = LANDING
  /\ isConnected home = false
  /\ avatarState home = IDLE
  /\ avatarState (source_onended i now home) = LISTENING
  /\ mode (source_onended i now home) = LANDING
  /\ isConnected (source_onended i now home) = false.
Proof.
  intros Hsrc Hmode Hend home.
  destruct (stopLiveSession_sources st) as [Hs Hc].
  assert (Hhome : sources home = sources st /\ nextStartTimeRef home = nextStartTimeRef st
                  /\ mode home = LANDING /\ isConnected home = false
                  /\ avatarState home = IDLE).
  { unfold home.
    destruct st as [md ms inp ld av co er ai ctx lsr asr nst [p |] [q |] srcs lv];
      repeat split; reflexivity. }
  destruct Hhome as (H1 & H2 & H3 & H4 & H5).
  repeat (split; [assumption | ]).
  unfold source_onended. rewrite H1, Hsrc, H2.
  apply Qle_bool_iff in Hend. rewrite Hend, Hmode. cbn.
  repeat split; assumption.
Qed.

Lemma home_during_playback_witness :
  avatarState (source_onended 2 3 (step (fun _ => EmptyString) ClickHome three_queued))
  = LISTENING
  /\ mode (source_onended 2 3 (step (fun _ => EmptyString) ClickHome three_queued))
     = LANDING.
Proof.
  destruct (home_during_playback (fun _ => EmptyString) 2
              (mkSource (0 + 1 + 1) 1 None LIVE_VOICE) 3 three_queued eq_refl eq_refl)
    as (_ & _ & _ & _ & Hav & Hmode & _).
  - unfold Qle; simpl; lia.
  - split; [exact Hav | exact Hmode].
Defined.

(** ** Capture: what is sent *)

Example base64_vectors :
  base64 [77; 97; 110] = "TWFu"%string
  /\ base64 [77; 97] = "TWE="%string
  /\ base64 [77] = "TQ=="%string.
Proof. repeat split; reflexivity. Qed.

Lemma pcm_sample_is_truncation (s : Q) :
  ((0 <= s)%Q -> (s < 1)%Q ->
   (inject_Z (Pcm.pcm_sample s) <= s * 32768)%Q
   /\ (s * 32768 < inject_Z (Pcm.pcm_sample s) + 1)%Q)
  /\ ((-1 <= s)%Q -> (s <= 0)%Q ->
      (inject_Z (Pcm.pcm_sample s) - 1 < s * 32768)%Q
      /\ (s * 32768 <= inject_Z (Pcm.pcm_sample s))%Q).
Proof.
  split.
  - intros Hlo Hhi. unfold Pcm.pcm_sample.
    rewrite PcmFacts.ToInt16_in_range by lra.
    rewrite Qtrunc_nonneg by lra.
    pose proof (Qfloor_le (s * 32768)%Q) as H1.
    pose proof (Qlt_floor (s * 32768)%Q) as H2.
    rewrite inject_Z_plus in H2. split; [exact H1 | exact H2].
  - intros Hlo Hhi. unfold Pcm.pcm_sample.
    rewrite PcmFacts.ToInt16_in_range by lra.
    assert (E : Pcm.Qtrunc (s * 32768)%Q = - Qfloor (- (s * 32768))%Q).
    { rewrite <- (Qtrunc_nonneg (- (s * 32768))%Q) by lra.
      rewrite Qtrunc_opp. lia. }
    rewrite E, inject_Z_opp.
    pose proof (Qfloor_le (- (s * 32768))%Q) as H1.
    pose proof (Qlt_floor (- (s * 32768))%Q) as H2.
    rewrite inject_Z_plus in H2. change (inject_Z 1) with 1%Q in H2.
    split; lra.
Qed.

Lemma pcm_buffer_pairs (inputData : list Q) :
  forall i s,
    nth_error inputData i = Some s ->
    exists lo hi,
      nth_error (Pcm.pcm_buffer (Pcm.pcm_encode inputData)) (2 * i) = Some lo
      /\ nth_error (Pcm.pcm_buffer (Pcm.pcm_encode inputData)) (2 * i + 1) = Some hi
      /\ 0 <= lo < 256 /\ 0 <= hi < 256
      /\ Pcm.pcm_sample s
         = (if (hi <? 128)%Z then lo + 256 * hi else lo + 256 * hi - 65536).
Proof.
  induction inputData as [| s0 l IH]; intros i s Hnth.
  - destruct i; discriminate.
  - destruct (int16_bytes_split (Pcm.pcm_sample s0) (PcmFacts.ToInt16_range _))
      as (lo & hi & E & Hlo & Hhi & Hz).
    change (Pcm.pcm_buffer (Pcm.pcm_encode (s0 :: l)))
      with (Pcm.int16_bytes (Pcm.pcm_sample s0) ++ Pcm.pcm_buffer (Pcm.pcm_encode l)).
    rewrite E.
    destruct i as [| i].
    + simpl in Hnth. injection Hnth as <-.
      exists lo, hi. split; [reflexivity | ]. split; [reflexivity | ].
      split; [exact Hlo | ]. split; [exact Hhi | exact Hz].
    + simpl in Hnth. destruct (IH i s Hnth) as (lo' & hi' & H1 & H2 & H3).
      exists lo', hi'.
      replace (2 * S i)%nat with (S (S (2 * i))) by lia.
      replace (S (S (2 * i)) + 1)%nat with (S (S (2 * i + 1))) by lia.
      split; [exact H1 | ]. split; [exact H2 | exact H3].
Qed.

(** C8: in every state the component can reach, a live session whose
    capture handler is installed has a processor with 4096-sample buffers on
    a 16 kHz input context.  Every frame the processor delivers is sent: the
    messages sent before stay, and one message per frame follows them, in
    the order of the frames.  The message of a frame has the mime type
    'audio/pcm;rate=16000' and, as data, the encoding of a buffer of two
    bytes per sample (8192 bytes for a frame of the processor's size) that
    holds at positions 2i and 2i+1, low byte first, the 16-bit
    two's-complement number obtained from sample i: for a sample in [0, 1)
    its product with 32768 rounded down, for a sample in [-1, 0] that
    product rounded up. *)
Theorem C8_capture_frames (b64 : list Z -> string) (es : list Event) (apiKey : bool)
    (date : Z) (k : nat) (io : LiveIO) (frames : list (list Q)) :
  let st := run b64 es (initial apiKey date) in
  nth_error (lives st) k = Some io ->
  onaudioprocessSet io = true ->
  bufferSize io = 4096%nat
  /\ ctxSampleRate io = 16000
  /\ (exists io' tail,
        nth_error (lives (capture_all b64 k frames st)) k = Some io'
        /\ sent io' = sent io ++ tail
        /\ List.length tail = List.length frames
        /\ (forall j f,
              nth_error frames j = Some f ->
              exists buf,
                nth_error tail j = Some (mkMedia "audio/pcm;rate=16000" (b64 buf))
                /\ List.length buf = (2 * List.length f)%nat
                /\ (List.length f = bufferSize io ->
                    List.length buf = (2 * 4096)%nat)
                /\ (forall i s,
                      nth_error f i = Some s ->
                      exists lo hi,
                        nth_error buf (2 * i) = Some lo
                        /\ nth_error buf (2 * i + 1) = Some hi
                        /\ 0 <= lo < 256 /\ 0 <= hi < 256
                        /\ (let z := if (hi <? 128)%Z
                                     then lo + 256 * hi
                                     else lo + 256 * hi - 65536 in
                            ((0 <= s)%Q -> (s < 1)%Q ->
                             (inject_Z z <= s * 32768)%Q
                             /\ (s * 32768 < inject_Z z + 1)%Q)
                            /\ ((-1 <= s)%Q -> (s <= 0)%Q ->
                                (inject_Z z - 1 < s * 32768)%Q
                                /\ (s * 32768 <= inject_Z z)%Q))))).
Proof.
  intros st Hnth Hset.
  assert (Hfmt : live_format_ok io).
  { assert (Hall : Forall live_format_ok (lives st))
      by (apply run_live_format; constructor).
    rewrite Forall_forall in Hall. apply Hall.
    apply nth_error_In with (n := k). exact Hnth. }
  destruct Hfmt as [Hsize Hrate].
  split; [exact Hsize | ]. split; [exact Hrate | ].
  destruct (capture_all_sent b64 k frames st io Hnth Hset) as (io' & Hio' & Hsent).
  exists io', (map (frame_media b64) frames).
  split; [exact Hio' | ]. split; [exact Hsent | ].
  split; [apply length_map | ].
  intros j f Hf.
  exists (Pcm.pcm_buffer (Pcm.pcm_encode f)).
  split; [rewrite nth_error_map, Hf; reflexivity | ].
  assert (Hlen : List.length (Pcm.pcm_buffer (Pcm.pcm_encode f)) = (2 * List.length f)%nat)
    by (rewrite PcmFacts.pcm_buffer_length, PcmFacts.pcm_encode_length; reflexivity).
  split; [exact Hlen | ].
  split; [intros Hf4096; rewrite Hlen, Hf4096, Hsize; reflexivity | ].
  intros i s Hs.
  destruct (pcm_buffer_pairs f i s Hs) as (lo & hi & H1 & H2 & Hlo & Hhi & Hz).
  exists lo, hi.
  split; [exact H1 | ]. split; [exact H2 | ].
  split; [exact Hlo | ]. split; [exact Hhi | ].
  cbv zeta. rewrite <- Hz. apply pcm_sample_is_truncation.
Qed.

Lemma C8_capture_frames_witness :
  exists io' tail,
    nth_error
      (lives
         (capture_all base64 0 [[(1 # 2)%Q; (-1 # 4)%Q]; [0%Q; (-1)%Q]]
            (run base64 [LiveEnter; LiveResume ConnectReturned; LiveOpen 0]
               (initial true 0)))) 0
    = Some io'
    /\ sent io' = sent (open_capture fresh_live) ++ tail
    /\ List.length tail = 2%nat.
Proof.
  destruct (C8_capture_frames base64
              [LiveEnter; LiveResume ConnectReturned; LiveOpen 0] true 0 0
              (open_capture fresh_live) [[(1 # 2)%Q; (-1 # 4)%Q]; [0%Q; (-1)%Q]]
              eq_refl eq_refl) as (_ & _ & io' & tail & Hio' & Hsent & Hlen & _).
  exists io', tail. split; [exact Hio' | ]. split; [exact Hsent | exact Hlen].
Defined.

(** Two frames through the capture handler of an open session, with the
    base64 encoder: 1/2 and -1/4 become 16384 and -8192, bytes 00 40 00 E0;
    0 and -1 become 0 and -32768, bytes 00 00 00 80. *)
Example capture_two_frames :
  option_map sent
    (nth_error
       (lives (capture_all base64 0 [[(1 # 2)%Q; (-1 # 4)%Q]; [0%Q; (-1)%Q]] live_open)) 0)
  = Some [mkMedia "audio/pcm;rate=16000" "AEAA4A==";
          mkMedia "audio/pcm;rate=16000" "AAAAgA=="].
Proof. vm_compute. reflexivity. Qed.
